(** * VisualCircuit: block factory ([frontend/src/components/blocks/common/factory.tsx])

    A shallow embedding of the package importer [loadPackage] and of the
    block-creation helpers [createBlock], [createComposedBlock] and
    [editBlock], with the properties the design document states about
    them, followed by further properties read off the code. *)

From Stdlib Require Import QArith Ascii.
From stdpp Require Import gmap strings list fin_maps.

Local Open Scope Z_scope.

(** ** JavaScript primitives used by the factory *)

Module Js.

(** [Number.prototype.toString(radix)] on an integer, radix 2..16:
    digits most significant first, a leading minus sign for negatives.
    This is what a number prints as while it is a safe integer (below
    [2^53] in magnitude); the counts and the random digits printed here
    are far below that. *)
Definition digit_char (d : Z) : ascii :=
  nth (Z.to_nat d) (String.list_ascii_of_string "0123456789abcdef") "0"%char.

Fixpoint digits_of (radix : Z) (fuel : nat) (n : Z) (acc : string) : string :=
  let acc' := String (digit_char (n mod radix)) acc in
  match fuel with
  | O => acc'
  | S fuel' => if n / radix =? 0 then acc' else digits_of radix fuel' (n / radix) acc'
  end.

Definition toString (radix : Z) (n : Z) : string :=
  let magnitude := digits_of radix (Z.to_nat (Z.log2 (Z.abs n))) (Z.abs n) "" in
  if n <? 0 then String "-"%char magnitude else magnitude.

(** [String.prototype.padStart(targetLength, padString)] with a
    one-character pad string. *)
Definition padStart (targetLength : nat) (pad : ascii) (s : string) : string :=
  String.string_of_list_ascii (replicate (targetLength - String.length s) pad) +:+ s.

(** [ToInt32]: truncate towards zero, then wrap into [-2^31, 2^31). *)
Definition ToInt32 (q : Q) : Z :=
  (Z.quot (Qnum q) (Zpos (Qden q)) + 2 ^ 31) mod 2 ^ 32 - 2 ^ 31.

(** [a | b] on numbers: both operands go through [ToInt32]. *)
Definition bitor (a : Q) (b : Z) : Z := Z.lor (ToInt32 a) b.

End Js.

(** ** The random source

    [Math.random()] is the only input of the id generator. A run of the
    program sees a sequence of its results; [rng k] is the k-th one and the
    state threaded through the generator is the number of draws made. *)

Definition Rand (A : Type) : Type := nat → A * nat.

Definition rand_ret {A} (a : A) : Rand A := λ pos, (a, pos).

Definition rand_bind {A B} (m : Rand A) (f : A → Rand B) : Rand B :=
  λ pos, let '(a, pos') := m pos in f a pos'.

Notation "'let*' x ':=' m 'in' k" := (rand_bind m (λ x, k))
  (at level 10, x binder, m at level 100, k at level 200, only parsing).

(** The contract of [Math.random]: a number in [0, 1). *)
Definition valid_random (rng : nat → Q) : Prop :=
  ∀ k, (0 <= rng k)%Q ∧ (rng k < 1)%Q.

Section generateNewId.

Variable rng : nat → Q.

Definition Math_random : Rand Q := λ pos, (rng pos, S pos).

(** The callback of [replace]:
    [c => { const r = Math.random() * 16 | 0;
            return (c === 'x' ? r : (r & 0x3 | 0x8)).toString(16); }] *)
Definition replacement (c : ascii) : Rand string :=
  let* x := Math_random in
  let r := Js.bitor (x * 16)%Q 0 in
  rand_ret (Js.toString 16 (if Ascii.eqb c "x" then r else Z.lor (Z.land r 3) 8)).

(** [s.replace(/[xy]/g, callback)]: matches are visited left to right and
    each is replaced by the callback's result. *)
Definition matches_xy (c : ascii) : bool := Ascii.eqb c "x" || Ascii.eqb c "y".

Fixpoint replace_xy (callback : ascii → Rand string) (s : string) : Rand string :=
  match s with
  | EmptyString => rand_ret EmptyString
  | String c s' =>
      if matches_xy c then
        let* piece := callback c in
        let* rest := replace_xy callback s' in
        rand_ret (piece +:+ rest)
      else
        let* rest := replace_xy callback s' in
        rand_ret (String c rest)
  end.

Definition generateNewId : Rand string :=
  replace_xy replacement "xxxxxxxx-xxxx-4xxx-yxxx-xxxxxxxxxxxx".

End generateNewId.

Example toString_hex : map (Js.toString 16) [0; 9; 10; 15; 16; 255; -1] =
                       ["0"; "9"; "a"; "f"; "10"; "ff"; "-1"].
Proof. reflexivity. Qed.

Example toString_dec : map (Js.toString 10) [0; 7; 10; 42; 9999; 10000; -3] =
                       ["0"; "7"; "10"; "42"; "9999"; "10000"; "-3"].
Proof. reflexivity. Qed.

Example generateNewId_zero :
  generateNewId (λ _, 0%Q) 0%nat = ("00000000-0000-4000-8000-000000000000", 31%nat).
Proof. reflexivity. Qed.

Example generateNewId_high :
  generateNewId (λ _, (15 # 16)%Q) 4%nat = ("ffffffff-ffff-4fff-bfff-ffffffffffff", 35%nat).
Proof. reflexivity. Qed.

(** ** The shape of a version-4 UUID

    Thirty-two hexadecimal digits grouped 8-4-4-4-12, the first digit of
    the third group being [4] and the first digit of the fourth group one
    of [8], [9], [a], [b]. *)

Inductive UuidField := Hex | Variant | Lit (c : ascii).

Definition is_hex_digit (c : ascii) : bool :=
  let n := nat_of_ascii c in
  (48 <=? n)%nat && (n <=? 57)%nat || (97 <=? n)%nat && (n <=? 102)%nat.

Definition is_variant_digit (c : ascii) : bool :=
  Ascii.eqb c "8" || Ascii.eqb c "9" || Ascii.eqb c "a" || Ascii.eqb c "b".

Definition field_ok (f : UuidField) (c : ascii) : bool :=
  match f with
  | Hex => is_hex_digit c
  | Variant => is_variant_digit c
  | Lit c' => Ascii.eqb c c'
  end.

Fixpoint has_layout (layout : list UuidField) (s : string) : bool :=
  match layout, s with
  | [], EmptyString => true
  | f :: layout', String c s' => field_ok f c && has_layout layout' s'
  | _, _ => false
  end.

Definition uuid_v4_layout : list UuidField :=
  replicate 8 Hex ++ [Lit "-"] ++
  replicate 4 Hex ++ [Lit "-"] ++
  [Lit "4"] ++ replicate 3 Hex ++ [Lit "-"] ++
  [Variant] ++ replicate 3 Hex ++ [Lit "-"] ++
  replicate 12 Hex.

Definition is_uuid_v4 (s : string) : bool := has_layout uuid_v4_layout s.

Example is_uuid_v4_yes : is_uuid_v4 "3f2b8c1e-9a4d-4e7f-a1b2-0123456789ab" = true.
Proof. reflexivity. Qed.

Example is_uuid_v4_no :
  map is_uuid_v4 [ "3f2b8c1e-9a4d-5e7f-a1b2-0123456789ab";
                   "3f2b8c1e-9a4d-4e7f-c1b2-0123456789ab";
                   "3F2B8C1E-9A4D-4E7F-A1B2-0123456789AB";
                   "3f2b8c1e9a4d4e7fa1b20123456789ab";
                   "3f2b8c1e-9a4d-4e7f-a1b2-0123456789abc" ]
  = [false; false; false; false; false].
Proof. reflexivity. Qed.

(** *** The generator produces that shape *)

(** Case analysis on an integer known to lie in [0, 16). *)
Ltac nibble_cases r H :=
  let Hin := fresh "Hin" in
  assert (r ∈ [0;1;2;3;4;5;6;7;8;9;10;11;12;13;14;15]) as Hin
    by (rewrite !elem_of_cons; lia);
  clear H; rewrite !elem_of_cons in Hin;
  repeat (destruct Hin as [-> | Hin]; [| try (by apply elem_of_nil in Hin)]).

Section generateNewId_shape.

Variable rng : nat → Q.
Hypothesis rng_valid : valid_random rng.

Lemma Math_random_nibble pos :
  0 ≤ Js.bitor (rng pos * 16)%Q 0 < 16.
Proof.
  destruct (rng_valid pos) as [Hlo Hhi].
  unfold Js.bitor, Js.ToInt32. rewrite Z.lor_0_r.
  destruct (rng pos) as [n d]. unfold Qle, Qlt in *. simpl in *.
  assert (0 ≤ n) by lia. assert (n < Z.pos d) by lia.
  rewrite Z.quot_div_nonneg by lia.
  replace (Z.pos (d * 1)) with (Z.pos d) by lia.
  assert (0 ≤ n * 16 / Z.pos d < 16).
  { split; [apply Z.div_pos; lia | apply Z.div_lt_upper_bound; lia]. }
  rewrite Z.mod_small; lia.
Qed.

Lemma toString_hex_digit r :
  0 ≤ r < 16 → Js.toString 16 r = String (Js.digit_char r) EmptyString.
Proof. intros Hr. nibble_cases r Hr; reflexivity. Qed.

Lemma digit_char_hex r : 0 ≤ r < 16 → is_hex_digit (Js.digit_char r) = true.
Proof. intros Hr. nibble_cases r Hr; reflexivity. Qed.

Lemma digit_char_variant r :
  0 ≤ r < 16 → is_variant_digit (Js.digit_char (Z.lor (Z.land r 3) 8)) = true.
Proof. intros Hr. nibble_cases r Hr; reflexivity. Qed.

Lemma variant_range r : 0 ≤ r < 16 → 0 ≤ Z.lor (Z.land r 3) 8 < 16.
Proof. intros Hr. nibble_cases r Hr; by compute. Qed.

(** One replacement is one character, of the kind its placeholder asks for. *)
Definition field_of_placeholder (c : ascii) : UuidField :=
  if Ascii.eqb c "x" then Hex else if Ascii.eqb c "y" then Variant else Lit c.

Lemma replacement_spec c pos :
  matches_xy c = true →
  ∃ d, replacement rng c pos = (String d EmptyString, S pos)
       ∧ field_ok (field_of_placeholder c) d = true.
Proof.
  intros Hc. unfold replacement, rand_bind, rand_ret, Math_random.
  pose proof (Math_random_nibble pos) as Hr.
  set (r := Js.bitor (rng pos * 16)%Q 0) in *.
  unfold field_of_placeholder, matches_xy in *.
  destruct (Ascii.eqb c "x") eqn:Hx.
  - eexists. rewrite toString_hex_digit by done. split; [done |].
    by apply digit_char_hex.
  - simpl in Hc. rewrite Hc.
    eexists. rewrite toString_hex_digit by by apply variant_range.
    split; [done |]. by apply digit_char_variant.
Qed.

Lemma replace_xy_layout template pos :
  has_layout (map field_of_placeholder (String.list_ascii_of_string template))
             (replace_xy (replacement rng) template pos).1 = true.
Proof.
  revert pos. induction template as [| c t IH]; intros pos; [done |].
  cbn [replace_xy String.list_ascii_of_string map].
  destruct (matches_xy c) eqn:Hc.
  - destruct (replacement_spec c pos Hc) as (d & Hd & Hok).
    unfold rand_bind at 1. rewrite Hd. unfold rand_bind, rand_ret.
    specialize (IH (S pos)). destruct (replace_xy _ t (S pos)) as [rest pos'].
    change (String d EmptyString +:+ rest) with (String d rest).
    cbn [fst has_layout] in *. by rewrite Hok, IH.
  - unfold rand_bind, rand_ret.
    specialize (IH pos). destruct (replace_xy _ t pos) as [rest pos'].
    cbn [fst has_layout] in *. rewrite IH, andb_true_r.
    unfold field_of_placeholder, matches_xy in *.
    destruct (Ascii.eqb c "x"); [done |]. destruct (Ascii.eqb c "y"); [done |].
    apply Ascii.eqb_refl.
Qed.

Lemma generateNewId_uuid_v4 pos : is_uuid_v4 (generateNewId rng pos).1 = true.
Proof. apply (replace_xy_layout "xxxxxxxx-xxxx-4xxx-yxxx-xxxxxxxxxxxx"). Qed.

End generateNewId_shape.

(** ** JavaScript objects

    [JsObject.t V] is an ordinary object seen through its own enumerable
    string-keyed properties, listed in the order [Object.keys] reports
    them: array-index keys in ascending numeric order first, then the
    remaining keys in the order they were created. An object has no two
    properties of the same name ([JsObject.wf]). *)

Module JsObject.

Abbreviation t V := (list (string * V)).

Definition keys {V} (o : t V) : list string := o.*1.

Definition wf {V} (o : t V) : Prop := NoDup (keys o).

(** [o[k]] *)
Fixpoint get {V} (o : t V) (k : string) : option V :=
  match o with
  | [] => None
  | (k', v) :: o' => if decide (k' = k) then Some v else get o' k
  end.

(** [delete o[k]] *)
Definition delete {V} (o : t V) (k : string) : t V :=
  filter (λ p, p.1 ≠ k) o.

(** A canonical numeric string below [2^32 - 1] is an array index. *)
Definition digit_value (c : ascii) : option Z :=
  let n := Z.of_nat (nat_of_ascii c) in
  if (48 <=? n) && (n <=? 57) then Some (n - 48) else None.

Fixpoint parse_digits (acc : Z) (s : string) : option Z :=
  match s with
  | EmptyString => Some acc
  | String c s' => d ← digit_value c; parse_digits (10 * acc + d) s'
  end.

Definition array_index (k : string) : option Z :=
  match k with
  | EmptyString => None
  | _ =>
      n ← parse_digits 0 k;
      if (n <? 2 ^ 32 - 1) && String.eqb (Js.toString 10 n) k
      then Some n else None
  end.

(** Where a property created under [k] lands in the key order. *)
Definition comes_before (k k' : string) : bool :=
  match array_index k, array_index k' with
  | Some i, Some i' => i' <? i
  | Some _, None => false
  | None, _ => true
  end.

Fixpoint add {V} (o : t V) (k : string) (v : V) : t V :=
  match o with
  | [] => [(k, v)]
  | (k', v') :: o' =>
      if comes_before k k' then (k', v') :: add o' k v
      else (k, v) :: (k', v') :: o'
  end.

Fixpoint replace {V} (o : t V) (k : string) (v : V) : t V :=
  match o with
  | [] => []
  | (k', v') :: o' =>
      if decide (k' = k) then (k, v) :: o' else (k', v') :: replace o' k v
  end.

(** [o[k] = v] *)
Definition set {V} (o : t V) (k : string) (v : V) : t V :=
  match get o k with
  | Some _ => replace o k v
  | None => add o k v
  end.

End JsObject.

Example JsObject_key_order :
  JsObject.keys (JsObject.set (JsObject.set (JsObject.set [("b", 1); ("a", 2)] "10" 3) "2" 4) "c" 5)
  = ["2"; "10"; "b"; "a"; "c"].
Proof. reflexivity. Qed.

Example JsObject_not_indices :
  map JsObject.array_index ["0"; "7"; "007"; "4294967294"; "4294967295"; "1e3"; "-1"; ""]
  = [Some 0; Some 7; None; Some 4294967294; None; None; None; None].
Proof. reflexivity. Qed.

(** *** Values read out of a plain object used as a dictionary

    [newIdMap] is created as [{}], so a lookup that finds no own property
    continues in [Object.prototype]. [JsBuiltin name] stands for the value
    found there under [name]: a built-in function, or for ["__proto__"]
    the prototype object itself. *)

Inductive JsValue :=
  | JsString (s : string)
  | JsBuiltin (name : string).

Definition Object_prototype_names : list string :=
  [ "constructor"; "hasOwnProperty"; "isPrototypeOf"; "propertyIsEnumerable";
    "toLocaleString"; "toString"; "valueOf"; "__proto__";
    "__defineGetter__"; "__defineSetter__"; "__lookupGetter__"; "__lookupSetter__" ].

(** [ToBoolean], as [if (newId)] applies it. *)
Definition truthy (v : option JsValue) : bool :=
  match v with
  | None => false
  | Some (JsString s) => negb (String.eqb s "")
  | Some (JsBuiltin _) => true
  end.

Module NewIdMap.

(** The own properties; every value stored is a generated id. *)
Abbreviation t := (gmap string string).

(** [newIdMap[key]] *)
Definition get (m : t) (key : string) : option JsValue :=
  match m !! key with
  | Some newId => Some (JsString newId)
  | None =>
      if bool_decide (key ∈ Object_prototype_names)
      then Some (JsBuiltin key) else None
  end.

(** [newIdMap[key] = newId]: an own data property is created or
    overwritten, except under ["__proto__"], where the assignment runs the
    inherited setter, which ignores a string. *)
Definition set (m : t) (key : string) (newId : string) : t :=
  if bool_decide (key = "__proto__") then m else <[key := newId]> m.

End NewIdMap.

(** ** The package document

    A package document is JSON: a tree, in which no object occurs in two
    places. The records below are its shape as [loadPackage] uses it
    (the interfaces [Block] and [Wire] of [core/serialiser/interfaces]
    give the ids the type [string]); whatever else an object carries is
    kept in its [attrs]. An [id] that [loadPackage] may overwrite with a
    value read from [newIdMap] has the type [JsValue]. *)

#[warnings="-register-all"]
Inductive Json :=
  | JNull
  | JBool (b : bool)
  | JNumber (n : Q)
  | JText (s : string)
  | JArray (items : list Json)
  | JObject (props : list (string * Json)).

Module Block.
Record t := mk { id : string; attrs : list (string * Json) }.
Definition set_id (newId : string) (b : t) : t := mk newId (attrs b).
End Block.

Module Endpoint.
Record t := mk { block : JsValue; port : Json }.
Definition set_block (v : JsValue) (e : t) : t := mk v (port e).
End Endpoint.

Module Wire.
Record t := mk { source : Endpoint.t; target : Endpoint.t; attrs : list (string * Json) }.
Definition set_source (e : Endpoint.t) (w : t) : t := mk e (target w) (attrs w).
Definition set_target (e : Endpoint.t) (w : t) : t := mk (source w) e (attrs w).
End Wire.

Module Graph.
Record t := mk { blocks : list Block.t; wires : list Wire.t }.
End Graph.

Module Design.
Record t := mk { graph : Graph.t; attrs : list (string * Json) }.
End Design.

Module ModelView.
Record t := mk { id : JsValue; attrs : list (string * Json) }.
Definition set_id (v : JsValue) (b : t) : t := mk v (attrs b).
End ModelView.

Module Layer.
Record t := mk { models : JsObject.t ModelView.t; attrs : list (string * Json) }.
Definition set_models (o : JsObject.t ModelView.t) (l : t) : t := mk o (attrs l).
End Layer.

Module Editor.
Record t := mk { layers : list Layer.t; attrs : list (string * Json) }.
Definition set_layers (ls : list Layer.t) (e : t) : t := mk ls (attrs e).
End Editor.

Module PackageDoc.
Record t := mk {
  editor : Editor.t;
  design : Design.t;
  package : Json;
  dependencies : Json
}.
End PackageDoc.

(** The options [loadPackage] hands to [new PackageBlockModel(...)]. *)
Module PackageBlockModel.
Record t := mk {
  model : Editor.t;
  design : Design.t;
  info : Json;
  dependencies : Json
}.
End PackageBlockModel.

(** ** Completions: a call returns normally or throws *)

Inductive JsError :=
  | TypeError
  | RangeError
  | Rejected (reason : string).

Inductive Completion (A : Type) :=
  | Normal (a : A)
  | Throw (e : JsError).
Arguments Normal {A} a.
Arguments Throw {A} e.

#[global] Instance Completion_ret : MRet Completion := λ A a, Normal a.
#[global] Instance Completion_fmap : FMap Completion := λ A B f m,
  match m with
  | Normal a => Normal (f a)
  | Throw e => Throw e
  end.
#[global] Instance Completion_bind : MBind Completion := λ A B f m,
  match m with
  | Normal a => f a
  | Throw e => Throw e
  end.

(** ** [loadPackage] *)

(** [cloneDeep] on a document value. The records above are immutable
    trees, on which a deep copy is the value itself; the store-level model
    further down allocates the copy object by object. *)
Definition cloneDeep {A : Type} (value : A) : A := value.

Section loadPackage.

(** The results of [Math.random()]. *)
Variable rng : nat → Q.

(** [String(Object.prototype[name])], the text an engine gives for a
    built-in found in the prototype; it differs between engines. *)
Variable builtin_text : string → string.

(** [ToPropertyKey] *)
Definition to_key (v : JsValue) : string :=
  match v with
  | JsString s => s
  | JsBuiltin name => builtin_text name
  end.

(** [blocks.forEach(block => { const newId = generateNewId();
                               newIdMap[block.id] = newId;
                               block.id = newId; })] *)
Fixpoint renameBlocks (blocks : list Block.t) (newIdMap : NewIdMap.t)
  : Rand (list Block.t * NewIdMap.t) :=
  match blocks with
  | [] => rand_ret ([], newIdMap)
  | block :: blocks' =>
      let* newId := generateNewId rng in
      let newIdMap := NewIdMap.set newIdMap (Block.id block) newId in
      let block := Block.set_id newId block in
      let* r := renameBlocks blocks' newIdMap in
      rand_ret (block :: r.1, r.2)
  end.

(** The body of the loop in [updateModelIdsInLayer], for one [oldId]. *)
Definition renameModel (newIdMap : NewIdMap.t)
    (models : JsObject.t ModelView.t) (oldId : string)
  : Completion (JsObject.t ModelView.t) :=
  let block := JsObject.get models oldId in
  let newId := NewIdMap.get newIdMap oldId in
  if truthy newId then
    match block, newId with
    | Some block, Some newId =>
        let block := ModelView.set_id newId block in
        let models := JsObject.set models (to_key newId) block in
        let models := JsObject.delete models oldId in
        Normal models
    | _, _ => Throw TypeError
    end
  else Normal models.

(** [keys.forEach(...)] over a snapshot of the keys, threading the object. *)
Fixpoint forEach {S K : Type} (body : S → K → Completion S) (items : list K) (s : S)
  : Completion S :=
  match items with
  | [] => Normal s
  | item :: items' => s' ← body s item; forEach body items' s'
  end.

Definition updateModelIdsInLayer (newIdMap : NewIdMap.t) (editor : Editor.t)
    (layerIndex : nat) : Completion Editor.t :=
  match Editor.layers editor !! layerIndex with
  | None => Throw TypeError
  | Some layer =>
      let models := Layer.models layer in
      models ← forEach (renameModel newIdMap) (JsObject.keys models) models;
      Normal (Editor.set_layers
                (<[layerIndex := Layer.set_models models layer]> (Editor.layers editor))
                editor)
  end.

(** The body of [wires.forEach(...)]. *)
Definition renameEndpoint (newIdMap : NewIdMap.t) (e : Endpoint.t) : Endpoint.t :=
  let newId := NewIdMap.get newIdMap (to_key (Endpoint.block e)) in
  match newId with
  | Some v => if truthy newId then Endpoint.set_block v e else e
  | None => e
  end.

Definition renameWire (newIdMap : NewIdMap.t) (wire : Wire.t) : Wire.t :=
  let newSource := renameEndpoint newIdMap (Wire.source wire) in
  let newTarget := renameEndpoint newIdMap (Wire.target wire) in
  Wire.set_target newTarget (Wire.set_source newSource wire).

Definition loadPackage (jsonModel : PackageDoc.t) : Rand (Completion PackageBlockModel.t) :=
  let originalEditor := PackageDoc.editor jsonModel in
  let originalDesign := PackageDoc.design jsonModel in
  let tempJsonModelDesign := cloneDeep originalDesign in
  let tempJsonModelEditor := cloneDeep originalEditor in
  let newIdMap : NewIdMap.t := ∅ in
  let* r := renameBlocks (Graph.blocks (Design.graph tempJsonModelDesign)) newIdMap in
  let blocks := r.1 in
  let newIdMap := r.2 in
  rand_ret (
    tempJsonModelEditor ← forEach (updateModelIdsInLayer newIdMap) [0%nat; 1%nat]
                                  tempJsonModelEditor;
    let wires := map (renameWire newIdMap) (Graph.wires (Design.graph tempJsonModelDesign)) in
    let tempJsonModelDesign :=
      Design.mk (Graph.mk blocks wires) (Design.attrs tempJsonModelDesign) in
    Normal (PackageBlockModel.mk tempJsonModelEditor tempJsonModelDesign
              (PackageDoc.package jsonModel) (PackageDoc.dependencies jsonModel))).

(** The ids the generator hands out in [n] consecutive calls. *)
Fixpoint generated_ids (n : nat) : Rand (list string) :=
  match n with
  | O => rand_ret []
  | S n' =>
      let* newId := generateNewId rng in
      let* rest := generated_ids n' in
      rand_ret (newId :: rest)
  end.

End loadPackage.

(** *** The scenarios of the design document *)

Definition v8_text (name : string) : string :=
  if String.eqb name "__proto__" then "[object Object]"
  else "function " +:+ (if String.eqb name "constructor" then "Object" else name)
       +:+ "() { [native code] }".

Definition zeros (_ : nat) : Q := 0%Q.

Definition counting (k : nat) : Q := (Z.of_nat (k `mod` 16) # 16)%Q.

Definition scenario_doc (endpoint : string) : PackageDoc.t :=
  PackageDoc.mk
    (Editor.mk
       [ Layer.mk [("a", ModelView.mk (JsString "a") [])] [];
         Layer.mk [] [] ] [])
    (Design.mk
       (Graph.mk
          [ Block.mk "a" [] ]
          [ Wire.mk (Endpoint.mk (JsString endpoint) (JText "p"))
                    (Endpoint.mk (JsString endpoint) (JText "p")) [] ])
       [])
    JNull JNull.

Example scenario_rename :
  let u := "01234567-89ab-4cde-b012-3456789abcde" in
  (loadPackage counting v8_text (scenario_doc "a") 0%nat).1 =
  Normal (PackageBlockModel.mk
    (Editor.mk
       [ Layer.mk [(u, ModelView.mk (JsString u) [])] [];
         Layer.mk [] [] ] [])
    (Design.mk
       (Graph.mk
          [ Block.mk u [] ]
          [ Wire.mk (Endpoint.mk (JsString u) (JText "p"))
                    (Endpoint.mk (JsString u) (JText "p")) [] ])
       [])
    JNull JNull).
Proof. reflexivity. Qed.

Example scenario_orphan :
  Graph.wires <$> (Design.graph <$> (PackageBlockModel.design <$>
    (loadPackage counting v8_text (scenario_doc "orphan") 0%nat).1))
  = Normal [ Wire.mk (Endpoint.mk (JsString "orphan") (JText "p"))
                     (Endpoint.mk (JsString "orphan") (JText "p")) [] ].
Proof. reflexivity. Qed.

(** * Properties *)

(** ** Objects as finite maps

    Which properties an object has, and with what values, is the finite
    map [to_map o]; the operations on objects are the map operations. *)

Section JsObject_facts.

Context {V : Type}.
Implicit Types (o : JsObject.t V) (k : string) (v : V).

Definition to_map o : gmap string V := list_to_map o.

Lemma JsObject_get_to_map o k : JsObject.get o k = to_map o !! k.
Proof.
  unfold to_map. induction o as [| [k' v'] o IH]; [done |].
  cbn [JsObject.get list_to_map foldr]. rewrite lookup_insert.
  by repeat case_decide.
Qed.

Lemma JsObject_keys_to_map o k : k ∈ JsObject.keys o ↔ is_Some (to_map o !! k).
Proof.
  unfold JsObject.keys, to_map. rewrite <-not_eq_None_Some.
  rewrite <-not_elem_of_list_to_map. destruct (decide (k ∈ o.*1)); tauto.
Qed.









End JsObject_facts.

(** ** One layer: the renaming loop on the finite map *)

Section layer_facts.

Variable builtin_text : string → string.
Variable newIdMap : NewIdMap.t.

Implicit Types (M : gmap string ModelView.t) (o : JsObject.t ModelView.t).

(** The key [oldId] moves to, if the loop body renames it. *)
Definition target (oldId : string) : option JsValue :=
  let newId := NewIdMap.get newIdMap oldId in
  if truthy newId then newId else None.





(** *** What the loop leaves alone *)



(** *** When no new key collides, entries are only moved *)







(** *** What the loop writes *)






End layer_facts.

(** ** The block loop and the id mapping it builds *)

Section renameBlocks_facts.

Variable rng : nat → Q.

Implicit Types (blocks : list Block.t) (m : NewIdMap.t).

Lemma digits_of_nonempty radix fuel n acc : Js.digits_of radix fuel n acc ≠ EmptyString.
Proof.
  revert n acc. induction fuel as [| fuel IH]; intros n acc; cbn [Js.digits_of].
  - done.
  - destruct (n / radix =? 0); [done | apply IH].
Qed.

Lemma toString_nonempty radix n : Js.toString radix n ≠ EmptyString.
Proof.
  unfold Js.toString. destruct (n <? 0); [done | apply digits_of_nonempty].
Qed.

Lemma replace_xy_nonempty callback c template pos :
  (∀ c' pos', (callback c' pos').1 ≠ EmptyString) →
  (replace_xy callback (String c template) pos).1 ≠ EmptyString.
Proof.
  intros Hcb. cbn [replace_xy]. unfold rand_bind, rand_ret.
  destruct (matches_xy c).
  - specialize (Hcb c pos). destruct (callback c pos) as [piece pos1].
    destruct (replace_xy callback template pos1) as [rest pos2].
    cbn [fst] in *. by destruct piece.
  - by destruct (replace_xy callback template pos) as [rest pos2].
Qed.

Lemma generateNewId_nonempty pos : (generateNewId rng pos).1 ≠ EmptyString.
Proof.
  apply replace_xy_nonempty. intros c' pos'. apply toString_nonempty.
Qed.

Lemma renameBlocks_cons block blocks m pos :
  renameBlocks rng (block :: blocks) m pos =
  let g := generateNewId rng pos in
  let r := renameBlocks rng blocks (NewIdMap.set m (Block.id block) g.1) g.2 in
  ((Block.set_id g.1 block :: r.1.1, r.1.2), r.2).
Proof.
  cbn [renameBlocks]. unfold rand_bind, rand_ret.
  destruct (generateNewId rng pos) as [newId pos1]. cbn [fst snd].
  by destruct (renameBlocks rng blocks _ pos1) as [[blocks' m'] pos2].
Qed.

Lemma generated_ids_S n pos :
  generated_ids rng (S n) pos =
  let g := generateNewId rng pos in
  let r := generated_ids rng n g.2 in
  (g.1 :: r.1, r.2).
Proof.
  cbn [generated_ids]. unfold rand_bind, rand_ret.
  destruct (generateNewId rng pos) as [newId pos1]. cbn [fst snd].
  by destruct (generated_ids rng n pos1) as [ids pos2].
Qed.

(** The new block ids are the generator's results, in order. *)
Lemma renameBlocks_ids blocks m pos :
  Block.id <$> (renameBlocks rng blocks m pos).1.1
  = (generated_ids rng (length blocks) pos).1.
Proof.
  revert m pos. induction blocks as [| b blocks IH]; intros m pos; [done |].
  rewrite renameBlocks_cons. cbn [length]. rewrite generated_ids_S.
  cbn. by rewrite IH.
Qed.



Lemma renameBlocks_ids_nonempty blocks m pos :
  EmptyString ∉ Block.id <$> (renameBlocks rng blocks m pos).1.1.
Proof.
  revert m pos. induction blocks as [| b blocks IH]; intros m pos.
  { apply not_elem_of_nil. }
  rewrite renameBlocks_cons. cbn. rewrite not_elem_of_cons. split; [| apply IH].
  intros Heq. by apply (generateNewId_nonempty pos).
Qed.

(** Every entry of the mapping sends an old block id to a new block id. *)
Lemma renameBlocks_map_sound blocks m pos k n :
  (renameBlocks rng blocks m pos).1.2 !! k = Some n →
  (k ∈ Block.id <$> blocks ∧ n ∈ Block.id <$> (renameBlocks rng blocks m pos).1.1)
  ∨ m !! k = Some n.
Proof.
  revert m pos. induction blocks as [| b blocks IH]; intros m pos; [by right |].
  rewrite renameBlocks_cons. cbn. intros Hk.
  apply IH in Hk as [[Hk Hn] | Hk].
  - left. split; by right.
  - unfold NewIdMap.set in Hk. case_bool_decide; [by right |].
    rewrite lookup_insert in Hk. case_decide; [| by right].
    simplify_eq. left. split; left.
Qed.

(** Every block id other than ["__proto__"] has an entry. *)
Lemma renameBlocks_map_complete blocks m pos k :
  k ∈ Block.id <$> blocks ∨ is_Some (m !! k) → k ≠ "__proto__" →
  is_Some ((renameBlocks rng blocks m pos).1.2 !! k).
Proof.
  intros Hk Hproto. revert m pos Hk.
  induction blocks as [| b blocks IH]; intros m pos Hk.
  { destruct Hk as [Hk | Hk]; [by apply elem_of_nil in Hk | done]. }
  rewrite renameBlocks_cons. cbn. apply IH.
  unfold NewIdMap.set. cbn in Hk. rewrite elem_of_cons in Hk.
  destruct Hk as [[-> | Hk] | Hk].
  - right. rewrite bool_decide_eq_false_2 by done.
    rewrite lookup_insert_eq. eauto.
  - by left.
  - right. case_bool_decide; [done |].
    rewrite lookup_insert. case_decide; eauto.
Qed.

(** ["__proto__"] never gets one. *)
Lemma renameBlocks_map_proto blocks m pos :
  m !! "__proto__" = None →
  (renameBlocks rng blocks m pos).1.2 !! "__proto__" = None.
Proof.
  revert m pos. induction blocks as [| b blocks IH]; intros m pos Hm; [done |].
  rewrite renameBlocks_cons. cbn. apply IH.
  unfold NewIdMap.set. case_bool_decide as Hb; [done |].
  rewrite lookup_insert_ne; [done | congruence].
Qed.

(** Distinct generated ids make the mapping injective. *)
Lemma renameBlocks_map_inj blocks m pos :
  NoDup (Block.id <$> (renameBlocks rng blocks m pos).1.1) →
  (∀ k n, m !! k = Some n → n ∉ Block.id <$> (renameBlocks rng blocks m pos).1.1) →
  (∀ k1 k2 n, m !! k1 = Some n → m !! k2 = Some n → k1 = k2) →
  ∀ k1 k2 n,
    (renameBlocks rng blocks m pos).1.2 !! k1 = Some n →
    (renameBlocks rng blocks m pos).1.2 !! k2 = Some n → k1 = k2.
Proof.
  revert m pos. induction blocks as [| b blocks IH]; intros m pos; [by auto |].
  rewrite renameBlocks_cons. cbn.
  set (g := generateNewId rng pos).
  intros Hnd Hfresh Hinj. apply NoDup_cons in Hnd as [Hg Hnd].
  apply IH; [done | |].
  - intros k n Hk. unfold NewIdMap.set in Hk. case_bool_decide.
    { apply Hfresh in Hk. rewrite not_elem_of_cons in Hk. tauto. }
    rewrite lookup_insert in Hk. case_decide; [by simplify_eq |].
    apply Hfresh in Hk. rewrite not_elem_of_cons in Hk. tauto.
  - intros k1 k2 n. unfold NewIdMap.set. case_bool_decide; [by apply Hinj |].
    rewrite !lookup_insert. repeat case_decide; intros Hk1 Hk2; simplify_eq.
    + done.
    + apply Hfresh in Hk2. rewrite not_elem_of_cons in Hk2. tauto.
    + apply Hfresh in Hk1. rewrite not_elem_of_cons in Hk1. tauto.
    + by eapply Hinj.
Qed.

End renameBlocks_facts.

(** ** The whole import *)

Definition doc_blocks (doc : PackageDoc.t) : list Block.t :=
  Graph.blocks (Design.graph (PackageDoc.design doc)).
Definition doc_wires (doc : PackageDoc.t) : list Wire.t :=
  Graph.wires (Design.graph (PackageDoc.design doc)).
Definition doc_layers (doc : PackageDoc.t) : list Layer.t :=
  Editor.layers (PackageDoc.editor doc).

Definition out_blocks (out : PackageBlockModel.t) : list Block.t :=
  Graph.blocks (Design.graph (PackageBlockModel.design out)).
Definition out_wires (out : PackageBlockModel.t) : list Wire.t :=
  Graph.wires (Design.graph (PackageBlockModel.design out)).
Definition out_layers (out : PackageBlockModel.t) : list Layer.t :=
  Editor.layers (PackageBlockModel.model out).


(** The keys of the layers the import renames. *)
Definition renamed_layer_keys (doc : PackageDoc.t) : list string :=
  l ← take 2 (doc_layers doc); JsObject.keys (Layer.models l).

(** A document of the expected shape: layers 0 and 1 exist, and they are
    objects (no property occurs twice). *)
Definition well_formed (doc : PackageDoc.t) : Prop :=
  (2 ≤ length (doc_layers doc))%nat
  ∧ ∀ l, l ∈ take 2 (doc_layers doc) → JsObject.wf (Layer.models l).

Definition well_formedb (doc : PackageDoc.t) : bool :=
  bool_decide (2 ≤ length (doc_layers doc))%nat
  && forallb (λ l, bool_decide (NoDup (JsObject.keys (Layer.models l))))
             (take 2 (doc_layers doc)).

Lemma well_formedb_correct doc : well_formedb doc = true → well_formed doc.
Proof.
  unfold well_formedb, well_formed. rewrite andb_true_iff, forallb_forall.
  intros [Hlen Hwf]. split; [by apply bool_decide_eq_true in Hlen |].
  intros l Hl. apply list_elem_of_In, Hwf in Hl. by apply bool_decide_eq_true in Hl.
Qed.

Section loadPackage_facts.

Variable rng : nat → Q.
Variable builtin_text : string → string.

Implicit Types (doc : PackageDoc.t) (out : PackageBlockModel.t).

(** The block loop of one run. *)
Definition new_blocks doc (pos : nat) : list Block.t :=
  (renameBlocks rng (doc_blocks doc) ∅ pos).1.1.
Definition id_mapping doc (pos : nat) : NewIdMap.t :=
  (renameBlocks rng (doc_blocks doc) ∅ pos).1.2.


(** The design part of the result never depends on the layers. *)
Lemma loadPackage_design doc pos out :
  (loadPackage rng builtin_text doc pos).1 = Normal out →
  PackageBlockModel.design out
  = Design.mk (Graph.mk (new_blocks doc pos)
                        (renameWire builtin_text (id_mapping doc pos) <$> doc_wires doc))
              (Design.attrs (PackageDoc.design doc))
  ∧ PackageBlockModel.info out = PackageDoc.package doc
  ∧ PackageBlockModel.dependencies out = PackageDoc.dependencies doc.
Proof.
  unfold loadPackage, new_blocks, id_mapping, doc_blocks, doc_wires, cloneDeep.
  unfold rand_bind, rand_ret.
  destruct (renameBlocks rng _ ∅ pos) as [[blocks m] pos']. cbn [fst snd].
  destruct (forEach _ _ _) as [editor |]; [| done].
  cbn. intros [= <-]. done.
Qed.


End loadPackage_facts.

(** ** Lookups in the id mapping *)

Section target_facts.

Variable m : NewIdMap.t.





End target_facts.

Section id_mapping_facts.

Variable rng : nat → Q.

(** The ids the generator hands out during one import. *)
Definition fresh_ids (doc : PackageDoc.t) (pos : nat) : list string :=
  (generated_ids rng (length (doc_blocks doc)) pos).1.

Lemma new_blocks_ids doc pos : Block.id <$> new_blocks rng doc pos = fresh_ids doc pos.
Proof. apply renameBlocks_ids. Qed.

Lemma fresh_ids_nonempty doc pos : EmptyString ∉ fresh_ids doc pos.
Proof. rewrite <-new_blocks_ids. apply renameBlocks_ids_nonempty. Qed.

Lemma id_mapping_sound doc pos k n :
  id_mapping rng doc pos !! k = Some n →
  k ∈ Block.id <$> doc_blocks doc ∧ n ∈ fresh_ids doc pos ∧ n ≠ EmptyString.
Proof.
  intros Hk. apply renameBlocks_map_sound in Hk as [[Hk Hn] | Hk]; [| done].
  fold (new_blocks rng doc pos) in Hn. rewrite new_blocks_ids in Hn.
  repeat split; [done | done |]. intros ->. by apply (fresh_ids_nonempty doc pos).
Qed.

Lemma id_mapping_absent doc pos k :
  k ∉ Block.id <$> doc_blocks doc → id_mapping rng doc pos !! k = None.
Proof.
  intros Hk. destruct (id_mapping rng doc pos !! k) as [n |] eqn:Hn; [| done].
  by apply id_mapping_sound in Hn as [? _].
Qed.

Lemma id_mapping_complete doc pos k :
  k ∈ Block.id <$> doc_blocks doc → k ≠ "__proto__" →
  is_Some (id_mapping rng doc pos !! k).
Proof. intros Hk Hproto. apply renameBlocks_map_complete; [by left | done]. Qed.

Lemma id_mapping_proto doc pos : id_mapping rng doc pos !! "__proto__" = None.
Proof. by apply renameBlocks_map_proto. Qed.

Lemma id_mapping_inj doc pos k1 k2 n :
  NoDup (fresh_ids doc pos) →
  id_mapping rng doc pos !! k1 = Some n → id_mapping rng doc pos !! k2 = Some n →
  k1 = k2.
Proof.
  intros Hnd. apply renameBlocks_map_inj; [| done | done].
  fold (new_blocks rng doc pos). by rewrite new_blocks_ids.
Qed.


End id_mapping_facts.

(** * The stated properties of [loadPackage] *)

Section loadPackage_properties.

Variable rng : nat → Q.
Variable builtin_text : string → string.

Implicit Types (doc : PackageDoc.t) (out : PackageBlockModel.t).

Lemma out_blocks_new doc pos out :
  (loadPackage rng builtin_text doc pos).1 = Normal out →
  out_blocks out = new_blocks rng doc pos.
Proof. intros Hrun. apply loadPackage_design in Hrun as (Hd & _). unfold out_blocks. by rewrite Hd. Qed.


Lemma generated_ids_uuid_v4 n pos :
  valid_random rng → Forall (λ s, is_uuid_v4 s = true) (generated_ids rng n pos).1.
Proof.
  intros Hvalid. revert pos. induction n as [| n IH]; intros pos; [by constructor |].
  rewrite generated_ids_S. cbn. constructor; [| apply IH].
  by apply generateNewId_uuid_v4.
Qed.

(** C7. Under the contract of [Math.random] (results in [0, 1)), every
    id [loadPackage] generates for a block, and so every block id in its
    result, is a version-4 UUID: 32 lower-case hexadecimal digits grouped
    8-4-4-4-12, with [4] as the version digit and one of [8], [9], [a],
    [b] as the variant digit. *)
Theorem loadPackage_block_ids_uuid_v4 doc pos :
  valid_random rng →
  Forall (λ newId, is_uuid_v4 newId = true) (fresh_ids rng doc pos)
  ∧ ∀ out, (loadPackage rng builtin_text doc pos).1 = Normal out →
           Forall (λ b, is_uuid_v4 (Block.id b) = true) (out_blocks out).
Proof.
  intros Hvalid. split; [by apply generated_ids_uuid_v4 |].
  intros out Hrun. rewrite (out_blocks_new _ _ _ Hrun).
  apply (Forall_fmap Block.id (λ s, is_uuid_v4 s = true)).
  rewrite new_blocks_ids. by apply generated_ids_uuid_v4.
Qed.


(** *** Wire endpoints *)

Lemma renameEndpoint_mapped m e n :
  m !! to_key builtin_text (Endpoint.block e) = Some n → n ≠ EmptyString →
  renameEndpoint builtin_text m e = Endpoint.set_block (JsString n) e.
Proof.
  intros Hk Hn. unfold renameEndpoint, NewIdMap.get. rewrite Hk. cbn.
  by apply String.eqb_neq in Hn as ->.
Qed.


(** An endpoint naming a block of the input, other than one whose id is
    ["__proto__"], names a block of the result afterwards. *)
Lemma renameEndpoint_resolves doc pos out e :
  (loadPackage rng builtin_text doc pos).1 = Normal out →
  to_key builtin_text (Endpoint.block e) ∈ Block.id <$> doc_blocks doc →
  to_key builtin_text (Endpoint.block e) ≠ "__proto__" →
  ∃ b, b ∈ out_blocks out
       ∧ Endpoint.block (renameEndpoint builtin_text (id_mapping rng doc pos) e)
         = JsString (Block.id b).
Proof.
  intros Hrun Hin Hproto.
  destruct (id_mapping_complete rng doc pos _ Hin Hproto) as [n Hn].
  pose proof (id_mapping_sound _ _ _ _ _ Hn) as (_ & Hfresh & Hne).
  rewrite (renameEndpoint_mapped _ _ n) by done.
  rewrite <-new_blocks_ids, <-(out_blocks_new _ _ _ Hrun) in Hfresh.
  apply list_elem_of_fmap in Hfresh as (b & -> & Hb). by exists b.
Qed.

(** *** Editor layers *)

(** No key of layers 0 and 1 names a member of [Object.prototype]. *)
Definition plain_keys doc : Prop :=
  Forall (λ k, k ∉ Object_prototype_names) (renamed_layer_keys doc).

(** None of [ids] is already a key of layers 0 and 1. *)
Definition ids_unused doc (ids : list string) : Prop :=
  Forall (λ k, k ∉ ids) (renamed_layer_keys doc).

Lemma renamed_layer_keys_elem doc (i : nat) l k :
  (i < 2)%nat → doc_layers doc !! i = Some l →
  k ∈ JsObject.keys (Layer.models l) → k ∈ renamed_layer_keys doc.
Proof.
  intros Hi Hl Hk. unfold renamed_layer_keys. apply list_elem_of_bind.
  exists l. split; [done |]. apply list_elem_of_lookup. exists i.
  by rewrite lookup_take_lt.
Qed.











(** *** The two layer updates commute *)

Lemma forEach_renameModel_throws m keys (o : JsObject.t ModelView.t) e :
  forEach (renameModel builtin_text m) keys o = Throw e → e = TypeError.
Proof.
  revert o. induction keys as [| k keys IH]; intros o; cbn [forEach]; [done |].
  destruct (renameModel builtin_text m o k) as [o' | e'] eqn:Hstep; cbn.
  - apply IH.
  - intros [= <-]. unfold renameModel in Hstep.
    destruct (truthy _); [| done].
    destruct (JsObject.get o k), (NewIdMap.get m k); by simplify_eq.
Qed.

Lemma updateModelIdsInLayer_throws m editor i e :
  updateModelIdsInLayer builtin_text m editor i = Throw e → e = TypeError.
Proof.
  unfold updateModelIdsInLayer. destruct (Editor.layers editor !! i) as [l |].
  - destruct (forEach _ _ _) as [o | e'] eqn:Hloop; cbn; [done |].
    intros [= <-]. by eapply forEach_renameModel_throws.
  - by intros [= <-].
Qed.

(** C8. With the id mapping fixed, updating layer 0 and then layer 1
    gives the same editor state (or the same failure) as updating layer 1
    and then layer 0. *)
Theorem updateModelIdsInLayer_commute m editor :
  (updateModelIdsInLayer builtin_text m editor 0 ≫= λ editor',
     updateModelIdsInLayer builtin_text m editor' 1)
  = (updateModelIdsInLayer builtin_text m editor 1 ≫= λ editor',
       updateModelIdsInLayer builtin_text m editor' 0).
Proof.
  destruct (updateModelIdsInLayer builtin_text m editor 0) as [e0 | err0] eqn:H0;
    destruct (updateModelIdsInLayer builtin_text m editor 1) as [e1 | err1] eqn:H1;
    cbn [mbind Completion_bind].
  - unfold updateModelIdsInLayer in *.
    destruct (Editor.layers editor !! 0%nat) as [l0 |] eqn:Hl0; [| done].
    destruct (Editor.layers editor !! 1%nat) as [l1 |] eqn:Hl1; [| done].
    destruct (forEach _ _ (Layer.models l0)) as [o0 |] eqn:Ho0; [| done].
    destruct (forEach _ _ (Layer.models l1)) as [o1 |] eqn:Ho1; [| done].
    cbn in H0, H1. simplify_eq. cbn.
    rewrite !list_lookup_insert_ne by done. rewrite Hl0, Hl1. cbn.
    rewrite Ho0, Ho1. cbn. by rewrite list_insert_insert_ne.
  - apply updateModelIdsInLayer_throws in H1 as Herr. subst err1.
    unfold updateModelIdsInLayer in *.
    destruct (Editor.layers editor !! 0%nat) as [l0 |] eqn:Hl0; [| done].
    destruct (forEach _ _ (Layer.models l0)) as [o0 |] eqn:Ho0; [| done].
    cbn in H0. simplify_eq. cbn.
    rewrite list_lookup_insert_ne by done.
    destruct (Editor.layers editor !! 1%nat) as [l1 |] eqn:Hl1; [| done].
    by destruct (forEach _ _ (Layer.models l1)) as [o1 |] eqn:Ho1.
  - apply updateModelIdsInLayer_throws in H0 as Herr. subst err0.
    unfold updateModelIdsInLayer in *.
    destruct (Editor.layers editor !! 1%nat) as [l1 |] eqn:Hl1; [| done].
    destruct (forEach _ _ (Layer.models l1)) as [o1 |] eqn:Ho1; [| done].
    cbn in H1. simplify_eq. cbn.
    rewrite list_lookup_insert_ne by done.
    destruct (Editor.layers editor !! 0%nat) as [l0 |] eqn:Hl0; [| done].
    by destruct (forEach _ _ (Layer.models l0)) as [o0 |] eqn:Ho0.
  - apply updateModelIdsInLayer_throws in H0, H1. by subst.
Qed.

End loadPackage_properties.

(** * Concrete runs *)

(** Settle a decidable proposition about concrete data by evaluation. *)
Ltac by_decide := apply (bool_decide_unpack _); vm_compute; exact I.

Definition scenario_result (u : string) (endpoint : JsValue) : PackageBlockModel.t :=
  PackageBlockModel.mk
    (Editor.mk
       [ Layer.mk [(u, ModelView.mk (JsString u) [])] [];
         Layer.mk [] [] ] [])
    (Design.mk
       (Graph.mk
          [ Block.mk u [] ]
          [ Wire.mk (Endpoint.mk endpoint (JText "p"))
                    (Endpoint.mk endpoint (JText "p")) [] ])
       [])
    JNull JNull.

Definition u_counting : string := "01234567-89ab-4cde-b012-3456789abcde".
Definition u_zeros : string := "00000000-0000-4000-8000-000000000000".

Lemma zeros_valid : valid_random zeros.
Proof. intros k. split; [discriminate | reflexivity]. Qed.

Lemma counting_valid : valid_random counting.
Proof.
  intros k. unfold counting, Qle, Qlt. cbn.
  pose proof (Nat.mod_upper_bound k 16). lia.
Qed.

Lemma loadPackage_block_ids_uuid_v4_witness :
  Forall (λ newId, is_uuid_v4 newId = true) (fresh_ids counting (scenario_doc "a") 0)
  ∧ ∀ out, (loadPackage counting v8_text (scenario_doc "a") 0%nat).1 = Normal out →
           Forall (λ b, is_uuid_v4 (Block.id b) = true) (out_blocks out).
Proof.
  apply (loadPackage_block_ids_uuid_v4 counting v8_text (scenario_doc "a") 0%nat).
  intros k. unfold counting, Qle, Qlt. simpl.
  pose proof (Nat.mod_upper_bound k 16). lia.
Defined.





(** A layer that already has a key equal to the id the generator is about
    to hand out. *)
Definition collision_doc : PackageDoc.t :=
  PackageDoc.mk
    (Editor.mk
       [ Layer.mk [ ("a", ModelView.mk (JsString "a") [("name", JText "first")]);
                    (u_zeros, ModelView.mk (JsString u_zeros) [("name", JText "second")]) ] [];
         Layer.mk [] [] ] [])
    (Design.mk (Graph.mk [ Block.mk "a" [] ] []) [])
    JNull JNull.


(** A wire end and a model entry that refer to no block of the document. *)
Definition orphan_doc : PackageDoc.t :=
  PackageDoc.mk
    (Editor.mk
       [ Layer.mk [ ("a", ModelView.mk (JsString "a") []);
                    ("orphan", ModelView.mk (JsString "orphan") [("name", JText "kept")]) ] [];
         Layer.mk [] [] ] [])
    (Design.mk
       (Graph.mk
          [ Block.mk "a" [] ]
          [ Wire.mk (Endpoint.mk (JsString "a") (JText "out"))
                    (Endpoint.mk (JsString "orphan") (JText "in")) [] ])
       [])
    JNull JNull.

Definition orphan_result : PackageBlockModel.t :=
  PackageBlockModel.mk
    (Editor.mk
       [ Layer.mk [ ("orphan", ModelView.mk (JsString "orphan") [("name", JText "kept")]);
                    (u_counting, ModelView.mk (JsString u_counting) []) ] [];
         Layer.mk [] [] ] [])
    (Design.mk
       (Graph.mk
          [ Block.mk u_counting [] ]
          [ Wire.mk (Endpoint.mk (JsString u_counting) (JText "out"))
                    (Endpoint.mk (JsString "orphan") (JText "in")) [] ])
       [])
    JNull JNull.

Example orphan_run :
  (loadPackage counting v8_text orphan_doc 0%nat).1 = Normal orphan_result.
Proof. reflexivity. Qed.



(** A block whose id is ["__proto__"], and a wire between its ports. *)
Definition proto_doc : PackageDoc.t :=
  PackageDoc.mk
    (Editor.mk [ Layer.mk [] []; Layer.mk [] [] ] [])
    (Design.mk
       (Graph.mk
          [ Block.mk "__proto__" [] ]
          [ Wire.mk (Endpoint.mk (JsString "__proto__") (JText "out"))
                    (Endpoint.mk (JsString "__proto__") (JText "in")) [] ])
       [])
    JNull JNull.

(** C3, at the failing input: both ends of the wire named a block of the
    input, and in the result they hold [Object.prototype] instead of the
    id of the renamed block. The assignment [newIdMap["__proto__"] = newId]
    stored nothing, and the lookup [newIdMap["__proto__"]] found the
    prototype object. *)
Lemma loadPackage_proto_endpoint_unresolved :
  (loadPackage counting v8_text proto_doc 0%nat).1
  = Normal (PackageBlockModel.mk
      (Editor.mk [ Layer.mk [] []; Layer.mk [] [] ] [])
      (Design.mk
         (Graph.mk
            [ Block.mk u_counting [] ]
            [ Wire.mk (Endpoint.mk (JsBuiltin "__proto__") (JText "out"))
                      (Endpoint.mk (JsBuiltin "__proto__") (JText "in")) [] ])
         [])
      JNull JNull).
Proof. reflexivity. Qed.


(** * Creating and editing blocks *)

(** The data object a dialog resolves with, and the options it is opened with. *)
Abbreviation BlockData := (JsObject.t Json).

Record DialogProps := {
  isOpen : bool;
  name : option Json;
  local : option Json;
  inputs : option Json;
  outputs : option Json;
  params : option Json
}.

Definition open_dialog : DialogProps :=
  {| isOpen := true; name := None; local := None;
     inputs := None; outputs := None; params := None |}.

(** The block view-models, each holding what it was constructed from. *)
Inductive BlockModel :=
  | ConstantBlockModel (data : BlockData)
  | CodeBlockModel (data : BlockData)
  | InputBlockModel (data : BlockData)
  | OutputBlockModel (data : BlockData)
  | PackageBlock (options : PackageBlockModel.t).

(** What the factory calls and does not define: the three dialogs and the
    collection lookup (awaited, so each either resolves with a value or
    rejects), [Toolkit.UID()], and the methods of the view-models. *)
Record Collaborators := {
  createConstantDialog : DialogProps → Completion BlockData;
  createCodeDialog : DialogProps → Completion BlockData;
  createIODialog : DialogProps → Completion BlockData;
  getCollectionBlock : string → Completion PackageDoc.t;
  Toolkit_UID : string;
  getData : BlockModel → BlockData;
  setData : BlockModel → BlockData → Completion BlockModel;
  getInputNames : BlockModel → Json;
  getOutputNames : BlockModel → Json;
  getParameterNames : BlockModel → Json
}.

(** What [console.log] has printed. *)
Abbreviation Console := (list JsError).

(** [try { body } catch (error) { console.log(error); }] around a body that
    computes the new value of the variable assigned in it. *)
Definition try_log {A : Type} (before : A) (body : Completion A) : Completion A * Console :=
  match body with
  | Normal after => (Normal after, [])
  | Throw error => (Normal before, [error])
  end.

(** [blockCount.toString().padStart(4, '0') + '-' + Toolkit.UID()] *)
Definition constant_block_id (blockCount : Z) (uid : string) : string :=
  Js.padStart 4 "0" (Js.toString 10 blockCount) +:+ "-" +:+ uid.

(** [createBlock] and [editBlock] are [async]: what they return is a
    promise, and its settlement is the [Completion] here, [Normal] for
    resolved and [Throw] for rejected. *)

Section factory.

Variable rng : nat → Q.
Variable builtin_text : string → string.
Variable env : Collaborators.

Definition createBlock (pos : nat) (name' : string) (blockCount : Z)
  : Completion (option BlockModel) * Console :=
  let block : option BlockModel := None in
  try_log block
    (if String.eqb name' "basic.constant" then
       data ← createConstantDialog env open_dialog;
       let data := JsObject.set data "id"
                     (JText (constant_block_id blockCount (Toolkit_UID env))) in
       Normal (Some (ConstantBlockModel data))
     else if String.eqb name' "basic.code" then
       data ← createCodeDialog env open_dialog;
       Normal (Some (CodeBlockModel data))
     else if String.eqb name' "basic.input" then
       data ← createIODialog env open_dialog;
       Normal (Some (InputBlockModel data))
     else if String.eqb name' "basic.output" then
       data ← createIODialog env open_dialog;
       Normal (Some (OutputBlockModel data))
     else
       data ← getCollectionBlock env name';
       options ← (loadPackage rng builtin_text data pos).1;
       Normal (Some (PackageBlock options))).

(** [editBlock] returns nothing; its effect is on [node], whose state after
    the call is the result here. *)
Definition editBlock (node : BlockModel) : Completion BlockModel * Console :=
  try_log node
    match node with
    | ConstantBlockModel _ =>
        data ← createConstantDialog env
                 {| isOpen := true;
                    name := JsObject.get (getData env node) "name";
                    local := JsObject.get (getData env node) "local";
                    inputs := None; outputs := None; params := None |};
        setData env node data
    | CodeBlockModel _ =>
        data ← createCodeDialog env
                 {| isOpen := true; name := None; local := None;
                    inputs := Some (getInputNames env node);
                    outputs := Some (getOutputNames env node);
                    params := Some (getParameterNames env node) |};
        setData env node data
    | InputBlockModel _ | OutputBlockModel _ =>
        data ← createIODialog env
                 {| isOpen := true;
                    name := JsObject.get (getData env node) "name";
                    local := None; inputs := None; outputs := None; params := None |};
        setData env node data
    | PackageBlock _ => Normal node
    end.

(** The one awaited collaborator call [createBlock] makes for [name']. *)
Definition awaited (name' : string) : Completion unit :=
  if String.eqb name' "basic.constant" then createConstantDialog env open_dialog ≫= λ _, Normal ()
  else if String.eqb name' "basic.code" then createCodeDialog env open_dialog ≫= λ _, Normal ()
  else if String.eqb name' "basic.input" then createIODialog env open_dialog ≫= λ _, Normal ()
  else if String.eqb name' "basic.output" then createIODialog env open_dialog ≫= λ _, Normal ()
  else getCollectionBlock env name' ≫= λ _, Normal ().

(** The dialog [editBlock] opens for [node], if any. *)
Definition edit_dialog (node : BlockModel) : Completion unit :=
  match node with
  | ConstantBlockModel _ =>
      createConstantDialog env
        {| isOpen := true;
           name := JsObject.get (getData env node) "name";
           local := JsObject.get (getData env node) "local";
           inputs := None; outputs := None; params := None |} ≫= λ _, Normal ()
  | CodeBlockModel _ =>
      createCodeDialog env
        {| isOpen := true; name := None; local := None;
           inputs := Some (getInputNames env node);
           outputs := Some (getOutputNames env node);
           params := Some (getParameterNames env node) |} ≫= λ _, Normal ()
  | InputBlockModel _ | OutputBlockModel _ =>
      createIODialog env
        {| isOpen := true;
           name := JsObject.get (getData env node) "name";
           local := None; inputs := None; outputs := None; params := None |} ≫= λ _, Normal ()
  | PackageBlock _ => Normal ()
  end.

Lemma try_log_normal {A} (before : A) body :
  ∃ after, (try_log before body).1 = Normal after.
Proof. destruct body; by eexists. Qed.

Lemma try_log_throw {A} (before : A) error :
  try_log before (Throw error) = (Normal before, [error]).
Proof. done. Qed.

(** C9. Whatever the collaborators do, [createBlock] and [editBlock]
    complete normally. When the awaited dialog (or collection lookup)
    rejects with [error], [createBlock] logs it and returns no block, and
    [editBlock] logs it and leaves the node as it was. *)
Theorem createBlock_editBlock_never_throw pos name' blockCount node :
  (∃ block, (createBlock pos name' blockCount).1 = Normal block)
  ∧ (∃ node', (editBlock node).1 = Normal node')
  ∧ (∀ error, awaited name' = Throw error →
       createBlock pos name' blockCount = (Normal None, [error]))
  ∧ (∀ error, edit_dialog node = Throw error →
       editBlock node = (Normal node, [error])).
Proof.
  split; [apply try_log_normal |]. split; [apply try_log_normal |]. split.
  - intros error. unfold awaited, createBlock.
    repeat (destruct (String.eqb name' _));
      (destruct (createConstantDialog env _) as [data | e]
       || destruct (createCodeDialog env _) as [data | e]
       || destruct (createIODialog env _) as [data | e]
       || destruct (getCollectionBlock env _) as [data | e]);
      cbn; intros Hawaited;
      first [discriminate Hawaited | by injection Hawaited as ->].
  - intros error. unfold edit_dialog, editBlock.
    destruct node as [d | d | d | d | options];
      (destruct (createConstantDialog env _) as [data | e]
       || destruct (createCodeDialog env _) as [data | e]
       || destruct (createIODialog env _) as [data | e]
       || idtac);
      cbn; intros Hdialog;
      first [discriminate Hdialog | by injection Hdialog as ->].
Qed.

End factory.

(** ** The id of a constant block *)

Section decimal.

Lemma digit_value_digit_char d :
  0 ≤ d < 10 → JsObject.digit_value (Js.digit_char d) = Some d.
Proof.
  intros Hd.
  assert (d ∈ [0;1;2;3;4;5;6;7;8;9]) as Hin by (rewrite !elem_of_cons; lia).
  rewrite !elem_of_cons in Hin.
  repeat (destruct Hin as [-> | Hin]; [reflexivity |]).
  by apply elem_of_nil in Hin.
Qed.

Lemma parse_digits_of fuel n acc :
  0 ≤ n < 10 ^ Z.of_nat (S fuel) →
  JsObject.parse_digits 0 (Js.digits_of 10 fuel n acc) = JsObject.parse_digits n acc.
Proof.
  revert n acc. induction fuel as [| fuel IH]; intros n acc Hn.
  - cbn [Js.digits_of JsObject.parse_digits].
    change (10 ^ Z.of_nat 1) with 10 in Hn.
    rewrite Z.mod_small by lia. rewrite digit_value_digit_char by lia.
    cbn. by rewrite Z.add_0_l.
  - cbn [Js.digits_of]. destruct (n / 10 =? 0) eqn:Hq.
    + apply Z.eqb_eq in Hq. destruct Hn as [Hn0 Hn1].
      assert (n < 10) by (clear Hn1 IH; Z.div_mod_to_equations; lia).
      cbn [JsObject.parse_digits].
      rewrite Z.mod_small by lia. rewrite digit_value_digit_char by lia.
      cbn. by rewrite Z.add_0_l.
    + rewrite IH.
      * cbn [JsObject.parse_digits].
        rewrite digit_value_digit_char by (apply Z.mod_pos_bound; lia).
        cbn [mbind option_bind]. by rewrite <-Z.div_mod by lia.
      * rewrite Nat2Z.inj_succ, Z.pow_succ_r in Hn by lia.
        destruct Hn as [Hn0 Hn1]. split; [apply Z.div_pos; lia |].
        apply Z.div_lt_upper_bound; lia.
Qed.

(** [toString()] of a count is its decimal numeral: reading the digits
    back gives the count. *)
Lemma toString_decimal n :
  0 ≤ n → JsObject.parse_digits 0 (Js.toString 10 n) = Some n.
Proof.
  intros Hn. unfold Js.toString.
  rewrite (proj2 (Z.ltb_ge n 0)) by done. rewrite Z.abs_eq by done.
  rewrite parse_digits_of; [done |].
  split; [done |]. rewrite Nat2Z.inj_succ, Z2Nat.id by apply Z.log2_nonneg.
  destruct (decide (n = 0)) as [-> | Hpos]; [done |].
  pose proof (Z.log2_spec n ltac:(lia)) as [_ Hlt].
  eapply Z.lt_le_trans; [exact Hlt |].
  apply Z.pow_le_mono_l. pose proof (Z.log2_nonneg n). lia.
Qed.

End decimal.

Section JsObject_assign.

Context {V : Type}.

Lemma JsObject_get_replace (o : JsObject.t V) k v :
  is_Some (JsObject.get o k) → JsObject.get (JsObject.replace o k v) k = Some v.
Proof.
  induction o as [| [k' v'] o IH]; cbn; [by intros [? ?] |].
  destruct (decide (k' = k)) as [-> | Hne]; cbn.
  - by rewrite decide_True.
  - by rewrite decide_False.
Qed.

Lemma JsObject_get_add (o : JsObject.t V) k v :
  JsObject.get o k = None → JsObject.get (JsObject.add o k v) k = Some v.
Proof.
  induction o as [| [k' v'] o IH]; cbn.
  - by rewrite decide_True.
  - destruct (decide (k' = k)) as [-> | Hne]; [done |]. intros Hnone.
    destruct (JsObject.comes_before k k'); cbn.
    + rewrite decide_False by done. by apply IH.
    + by rewrite decide_True.
Qed.

(** After [o[k] = v], [o[k]] is [v]. *)
Lemma JsObject_get_set (o : JsObject.t V) k v :
  JsObject.get (JsObject.set o k v) k = Some v.
Proof.
  unfold JsObject.set. destruct (JsObject.get o k) eqn:Hk.
  - apply JsObject_get_replace. by rewrite Hk.
  - by apply JsObject_get_add.
Qed.

End JsObject_assign.

Section constant_block_id.

Lemma string_length_app s1 s2 :
  String.length (s1 +:+ s2) = (String.length s1 + String.length s2)%nat.
Proof. induction s1 as [| c s1 IH]; simpl; [done | by f_equal]. Qed.

Lemma string_length_of_list l :
  String.length (String.string_of_list_ascii l) = length l.
Proof. induction l as [| c l IH]; simpl; [done | by f_equal]. Qed.

Lemma padStart_length target pad s :
  (target ≤ String.length (Js.padStart target pad s))%nat.
Proof.
  unfold Js.padStart.
  rewrite string_length_app, string_length_of_list, length_replicate. lia.
Qed.

(** The four characters a count below 10000 is padded to. *)
Definition four_digits (c : Z) : string :=
  String (Js.digit_char (c / 1000))
    (String (Js.digit_char (c / 100 mod 10))
       (String (Js.digit_char (c / 10 mod 10))
          (String (Js.digit_char (c mod 10)) EmptyString))).

Lemma padStart_four_digits c :
  0 ≤ c < 10000 → Js.padStart 4 "0" (Js.toString 10 c) = four_digits c.
Proof.
  intros Hc.
  assert (forallb (λ c, String.eqb (Js.padStart 4 "0" (Js.toString 10 c)) (four_digits c))
                  (seqZ 0 10000) = true) as Hall by (vm_compute; reflexivity).
  rewrite forallb_forall in Hall. apply String.eqb_eq, Hall.
  apply list_elem_of_In, elem_of_seqZ. lia.
Qed.

Lemma digit_char_compare i j :
  0 ≤ i < 10 → 0 ≤ j < 10 →
  Ascii.compare (Js.digit_char i) (Js.digit_char j) = (i ?= j).
Proof.
  intros Hi Hj.
  assert (forallb (λ i, forallb (λ j,
            bool_decide (Ascii.compare (Js.digit_char i) (Js.digit_char j) = (i ?= j)))
            (seqZ 0 10)) (seqZ 0 10) = true) as Hall by (vm_compute; reflexivity).
  rewrite forallb_forall in Hall.
  specialize (Hall i). rewrite forallb_forall in Hall.
  eapply bool_decide_eq_true_1, Hall; apply list_elem_of_In, elem_of_seqZ; lia.
Qed.

Lemma string_app_cons c s1 s2 : String c s1 +:+ s2 = String c (s1 +:+ s2).
Proof. done. Qed.

Lemma string_compare_cons c1 s1 c2 s2 :
  String.compare (String c1 s1) (String c2 s2)
  = match Ascii.compare c1 c2 with
    | Eq => String.compare s1 s2
    | order => order
    end.
Proof. done. Qed.

(** Below 10000, a smaller count gives a smaller id, whatever the UIDs. *)
Lemma constant_block_id_lt c1 c2 uid1 uid2 :
  0 ≤ c1 → c1 < c2 → c2 < 10000 →
  String.ltb (constant_block_id c1 uid1) (constant_block_id c2 uid2) = true.
Proof.
  intros H0 Hlt Hmax. unfold constant_block_id.
  rewrite !padStart_four_digits by lia.
  unfold four_digits, String.ltb.
  rewrite !string_app_cons, !string_compare_cons.
  rewrite !digit_char_compare by (Z.div_mod_to_equations; lia).
  repeat match goal with
         | |- context [?a ?= ?b] => destruct (Z.compare_spec a b); try done
         end.
  all: exfalso; Z.div_mod_to_equations; lia.
Qed.

End constant_block_id.

Example constant_block_ids :
  map (λ c, constant_block_id c "uid") [0; 7; 42; 9999; 10000; 123456]
  = ["0000-uid"; "0007-uid"; "0042-uid"; "9999-uid"; "10000-uid"; "123456-uid"].
Proof. reflexivity. Qed.

(** At 10000 the order is lost. *)
Example constant_block_id_wraps :
  String.ltb (constant_block_id 9999 "x") (constant_block_id 10000 "x") = false.
Proof. reflexivity. Qed.

Section createBlock_constant.

Variable rng : nat → Q.
Variable builtin_text : string → string.
Variable env : Collaborators.

(** C10. When the constant dialog resolves with [data], [createBlock]
    called with ['basic.constant'] returns a [ConstantBlockModel] built
    from [data] with its [id] set to: [blockCount] in decimal, padded on
    the left with ['0'] to at least four characters, then ['-'], then the
    UID. Of two counts below 10000 the smaller gives the smaller id in
    lexicographic order. *)
Theorem createBlock_constant_id pos blockCount data :
  createConstantDialog env open_dialog = Normal data →
  ∃ data',
    createBlock rng builtin_text env pos "basic.constant" blockCount
    = (Normal (Some (ConstantBlockModel data')), [])
    ∧ JsObject.get data' "id"
      = Some (JText (Js.padStart 4 "0" (Js.toString 10 blockCount)
                     +:+ "-" +:+ Toolkit_UID env))
    ∧ (∃ n, Js.padStart 4 "0" (Js.toString 10 blockCount)
            = String.string_of_list_ascii (replicate n "0"%char)
              +:+ Js.toString 10 blockCount)
    ∧ (4 ≤ String.length (Js.padStart 4 "0" (Js.toString 10 blockCount)))%nat
    ∧ (0 ≤ blockCount →
       JsObject.parse_digits 0 (Js.toString 10 blockCount) = Some blockCount)
    ∧ (∀ later uid uid',
         0 ≤ blockCount → blockCount < later → later < 10000 →
         String.ltb (constant_block_id blockCount uid)
                    (constant_block_id later uid') = true).
Proof.
  intros Hdialog. eexists. split.
  { unfold createBlock. cbn. rewrite Hdialog. reflexivity. }
  split; [apply JsObject_get_set |].
  split; [by eexists |].
  split; [apply padStart_length |].
  split; [apply toString_decimal |].
  intros later uid uid'. apply constant_block_id_lt.
Qed.

End createBlock_constant.

(** *** A session: every dialog is cancelled, or every dialog is answered *)

Definition cancelling : Collaborators :=
  {| createConstantDialog := λ _, Throw (Rejected "cancelled");
     createCodeDialog := λ _, Throw (Rejected "cancelled");
     createIODialog := λ _, Throw (Rejected "cancelled");
     getCollectionBlock := λ _, Throw (Rejected "not found");
     Toolkit_UID := "uid-1";
     getData := λ node, match node with
                        | ConstantBlockModel d | CodeBlockModel d
                        | InputBlockModel d | OutputBlockModel d => d
                        | PackageBlock _ => []
                        end;
     setData := λ node d, Normal (match node with
                                  | ConstantBlockModel _ => ConstantBlockModel d
                                  | CodeBlockModel _ => CodeBlockModel d
                                  | InputBlockModel _ => InputBlockModel d
                                  | OutputBlockModel _ => OutputBlockModel d
                                  | PackageBlock o => PackageBlock o
                                  end);
     getInputNames := λ _, JArray [];
     getOutputNames := λ _, JArray [];
     getParameterNames := λ _, JArray [] |}.

Definition answering : Collaborators :=
  {| createConstantDialog := λ _, Normal [("name", JText "gain"); ("value", JText "2")];
     createCodeDialog := λ _, Normal [("code", JText "")];
     createIODialog := λ _, Normal [("name", JText "in")];
     getCollectionBlock := λ _, Normal (scenario_doc "a");
     Toolkit_UID := "uid-1";
     getData := getData cancelling;
     setData := setData cancelling;
     getInputNames := λ _, JArray [];
     getOutputNames := λ _, JArray [];
     getParameterNames := λ _, JArray [] |}.

Example createBlock_cancelled :
  map (λ n, createBlock zeros v8_text cancelling 0 n 3)
      ["basic.constant"; "basic.code"; "basic.input"; "basic.output"; "adder"]
  = [ (Normal None, [Rejected "cancelled"]); (Normal None, [Rejected "cancelled"]);
      (Normal None, [Rejected "cancelled"]); (Normal None, [Rejected "cancelled"]);
      (Normal None, [Rejected "not found"]) ].
Proof. reflexivity. Qed.

Example createBlock_answered :
  createBlock zeros v8_text answering 0 "basic.constant" 3
  = (Normal (Some (ConstantBlockModel
       [("name", JText "gain"); ("value", JText "2"); ("id", JText "0003-uid-1")])), []).
Proof. reflexivity. Qed.

Example createBlock_package :
  createBlock counting v8_text answering 0 "adder" 3
  = (Normal (Some (PackageBlock (scenario_result u_counting (JsString u_counting)))), []).
Proof. reflexivity. Qed.

Lemma createBlock_editBlock_never_throw_witness :
  (∃ block, (createBlock zeros v8_text cancelling 0 "basic.constant" 3).1 = Normal block)
  ∧ (∃ node', (editBlock cancelling (ConstantBlockModel [])).1 = Normal node')
  ∧ (∀ error, awaited cancelling "basic.constant" = Throw error →
       createBlock zeros v8_text cancelling 0 "basic.constant" 3 = (Normal None, [error]))
  ∧ (∀ error, edit_dialog cancelling (ConstantBlockModel []) = Throw error →
       editBlock cancelling (ConstantBlockModel []) = (Normal (ConstantBlockModel []), [error])).
Proof.
  apply (createBlock_editBlock_never_throw zeros v8_text cancelling 0%nat
           "basic.constant" 3 (ConstantBlockModel [])).
Defined.

Lemma createBlock_constant_id_witness :
  ∃ data',
    createBlock zeros v8_text answering 0 "basic.constant" 3
    = (Normal (Some (ConstantBlockModel data')), [])
    ∧ JsObject.get data' "id"
      = Some (JText (Js.padStart 4 "0" (Js.toString 10 3) +:+ "-" +:+ Toolkit_UID answering))
    ∧ (∃ n, Js.padStart 4 "0" (Js.toString 10 3)
            = String.string_of_list_ascii (replicate n "0"%char) +:+ Js.toString 10 3)
    ∧ (4 ≤ String.length (Js.padStart 4 "0" (Js.toString 10 3)))%nat
    ∧ (0 ≤ 3 → JsObject.parse_digits 0 (Js.toString 10 3) = Some 3)
    ∧ (∀ later uid uid',
         0 ≤ 3 → 3 < later → later < 10000 →
         String.ltb (constant_block_id 3 uid) (constant_block_id later uid') = true).
Proof.
  apply (createBlock_constant_id zeros v8_text answering 0%nat 3
           [("name", JText "gain"); ("value", JText "2")]).
  reflexivity.
Defined.

(** * The object store

    To say that [loadPackage] leaves its argument alone, objects need
    identity. Here a document is a graph of objects in a store; a value
    is a primitive or a reference to an object; [cloneDeep] allocates new
    objects; and every assignment of the source is a write to the object
    its left-hand side refers to. *)

Module Heap.

Inductive value :=
  | Undefined
  | Null
  | Bool (b : bool)
  | Number (n : Q)
  | Str (s : string)
  | Ref (l : nat)
  | Builtin (name : string).

(** An object or an array. An array is an object whose elements are its
    array-index properties. *)
Record object := Object { is_array : bool; props : JsObject.t value }.

(** The objects allocated so far, and the number of [Math.random] draws made. *)
Record state := State { objects : list object; draws : nat }.

Definition M (A : Type) : Type := state → Completion A * state.

Definition ret {A} (a : A) : M A := λ s, (Normal a, s).

Definition throw {A} (e : JsError) : M A := λ s, (Throw e, s).

Definition bind {A B} (m : M A) (f : A → M B) : M B :=
  λ s, match m s with
       | (Normal a, s') => f a s'
       | (Throw e, s') => (Throw e, s')
       end.

Notation "'do' x ← m ; k" := (bind m (λ x, k))
  (at level 10, x binder, m at level 100, k at level 200, only parsing).
Notation "m ;; k" := (bind m (λ _, k))
  (at level 100, k at level 200, right associativity, only parsing).

Fixpoint forEach {K : Type} (body : K → M unit) (items : list K) : M unit :=
  match items with
  | [] => ret ()
  | item :: items' => body item ;; forEach body items'
  end.

(** [ToBoolean] *)
Definition ToBoolean (v : value) : bool :=
  match v with
  | Undefined | Null => false
  | Bool b => b
  | Number n => negb (Qeq_bool n 0)
  | Str s => negb (String.eqb s "")
  | Ref _ | Builtin _ => true
  end.

(** What a property read finds when the receiver has no own property [k]. *)
Definition inherited (k : string) : value :=
  if bool_decide (k ∈ Object_prototype_names) then Builtin k else Undefined.

(** The characters of a string are its index properties. *)
Definition string_keys (s : string) : list string :=
  (λ i : nat, Js.toString 10 (Z.of_nat i)) <$> seq 0 (String.length s).

Definition string_property (s : string) (k : string) : value :=
  match JsObject.array_index k with
  | Some i =>
      match String.get (Z.to_nat i) s with
      | Some c => Str (String c EmptyString)
      | None => inherited k
      end
  | None => inherited k
  end.

Definition alloc (o : object) : M value :=
  λ s, (Normal (Ref (length (objects s))), State (objects s ++ [o]) (draws s)).

Definition read (l : nat) : M object :=
  λ s, match objects s !! l with
       | Some o => (Normal o, s)
       | None => (Throw TypeError, s)
       end.

Definition write (l : nat) (o : object) : M unit :=
  λ s, (Normal (), State (<[l := o]> (objects s)) (draws s)).

(** [v[k]] *)
Definition Get (v : value) (k : string) : M value :=
  match v with
  | Undefined | Null => throw TypeError
  | Ref l => do o ← read l; ret (default (inherited k) (JsObject.get (props o) k))
  | Str s => ret (string_property s k)
  | Bool _ | Number _ | Builtin _ => ret (inherited k)
  end.

(** [v[k] = x], in strict mode. Under ["__proto__"] the inherited setter
    runs and no own property is created. *)
Definition Set_ (v : value) (k : string) (x : value) : M unit :=
  match v with
  | Ref l =>
      do o ← read l;
      if bool_decide (k = "__proto__") then ret ()
      else write l (Object (is_array o) (JsObject.set (props o) k x))
  | Builtin _ => ret ()
  | Undefined | Null | Bool _ | Number _ | Str _ => throw TypeError
  end.

(** [delete v[k]] *)
Definition Delete (v : value) (k : string) : M unit :=
  match v with
  | Ref l => do o ← read l; write l (Object (is_array o) (JsObject.delete (props o) k))
  | Undefined | Null | Str _ => throw TypeError
  | Bool _ | Number _ | Builtin _ => ret ()
  end.

(** [Object.keys(v)] *)
Definition Object_keys (v : value) : M (list string) :=
  match v with
  | Undefined | Null => throw TypeError
  | Ref l => do o ← read l; ret (JsObject.keys (props o))
  | Str s => ret (string_keys s)
  | Bool _ | Number _ | Builtin _ => ret []
  end.

(** The elements [v.forEach] visits; only an array has the method. *)
Definition elements (v : value) : M (list value) :=
  match v with
  | Ref l =>
      do o ← read l;
      if is_array o
      then ret ((filter (λ p, is_Some (JsObject.array_index p.1)) (props o)).*2)
      else throw TypeError
  | _ => throw TypeError
  end.

(** *** [cloneDeep]

    A plain object or array is copied into a new object, property by
    property, after its copy has been registered, so that an object
    reached twice is copied once; any other value is returned as it is.
    The recursion is as deep as the object graph; [fuel] is the depth of
    the call stack. *)
Fixpoint clone_props (clone : value → gmap nat nat → M (value * gmap nat nat))
    (ps : JsObject.t value) (seen : gmap nat nat)
  : M (JsObject.t value * gmap nat nat) :=
  match ps with
  | [] => ret ([], seen)
  | (k, v) :: ps' =>
      do r ← clone v seen;
      do rs ← clone_props clone ps' r.2;
      ret ((k, r.1) :: rs.1, rs.2)
  end.

Fixpoint baseClone (fuel : nat) (v : value) (seen : gmap nat nat)
  : M (value * gmap nat nat) :=
  match v with
  | Ref l =>
      match seen !! l with
      | Some l' => ret (Ref l', seen)
      | None =>
          match fuel with
          | O => throw RangeError
          | S fuel' =>
              do o ← read l;
              do result ← alloc (Object (is_array o) []);
              match result with
              | Ref l' =>
                  do r ← clone_props (baseClone fuel') (props o) (<[l := l']> seen);
                  write l' (Object (is_array o) r.1) ;;
                  ret (result, r.2)
              | _ => ret (result, seen)
              end
          end
      end
  | _ => ret (v, seen)
  end.

Definition cloneDeep (v : value) : M value :=
  λ s, (do r ← baseClone (S (length (objects s))) v ∅; ret r.1) s.

(** *** [loadPackage] on the store *)

Section loadPackage.

Variable rng : nat → Q.

(** [String(v)] for the values whose text depends on the engine or on
    the contents of the store. *)
Variable builtin_text : string → string.
Variable number_text : Q → string.
Variable object_text : list object → nat → string.

Definition ToPropertyKey (v : value) : M string :=
  λ s, (Normal match v with
               | Str x => x
               | Undefined => "undefined"
               | Null => "null"
               | Bool true => "true"
               | Bool false => "false"
               | Number n => number_text n
               | Builtin name => builtin_text name
               | Ref l => object_text (objects s) l
               end, s).

Definition generateNewId : M string :=
  λ s, let g := generateNewId rng (draws s) in (Normal g.1, State (objects s) g.2).

Definition renameBlock (newIdMap block : value) : M unit :=
  do newId ← generateNewId;
  do oldId ← Get block "id";
  do key ← ToPropertyKey oldId;
  Set_ newIdMap key (Str newId) ;;
  Set_ block "id" (Str newId).

Definition renameModel (newIdMap models : value) (oldId : string) : M unit :=
  do block ← Get models oldId;
  do newId ← Get newIdMap oldId;
  if ToBoolean newId then
    Set_ block "id" newId ;;
    do key ← ToPropertyKey newId;
    Set_ models key block ;;
    Delete models oldId
  else ret ().

Definition updateModelIdsInLayer (tempJsonModelEditor newIdMap : value)
    (layerIndex : Z) : M unit :=
  do layers ← Get tempJsonModelEditor "layers";
  do layer ← Get layers (Js.toString 10 layerIndex);
  do models ← Get layer "models";
  do keys ← Object_keys models;
  forEach (renameModel newIdMap models) keys.

Definition renameWire (newIdMap wire : value) : M unit :=
  do source ← Get wire "source";
  do sourceBlock ← Get source "block";
  do sourceKey ← ToPropertyKey sourceBlock;
  do newSourceId ← Get newIdMap sourceKey;
  do target ← Get wire "target";
  do targetBlock ← Get target "block";
  do targetKey ← ToPropertyKey targetBlock;
  do newTargetId ← Get newIdMap targetKey;
  (if ToBoolean newSourceId
   then do source ← Get wire "source"; Set_ source "block" newSourceId
   else ret ()) ;;
  (if ToBoolean newTargetId
   then do target ← Get wire "target"; Set_ target "block" newTargetId
   else ret ()).

(** Everything up to the [return]. *)
Definition rename (jsonModel : value) : M (value * value) :=
  do originalEditor ← Get jsonModel "editor";
  do originalDesign ← Get jsonModel "design";
  do tempJsonModelDesign ← cloneDeep originalDesign;
  do tempJsonModelEditor ← cloneDeep originalEditor;
  do newIdMap ← alloc (Object false []);
  do graph ← Get tempJsonModelDesign "graph";
  do blocks ← Get graph "blocks";
  do blockList ← elements blocks;
  forEach (renameBlock newIdMap) blockList ;;
  forEach (updateModelIdsInLayer tempJsonModelEditor newIdMap) [0; 1] ;;
  do graph ← Get tempJsonModelDesign "graph";
  do wires ← Get graph "wires";
  do wireList ← elements wires;
  forEach (renameWire newIdMap) wireList ;;
  ret (tempJsonModelEditor, tempJsonModelDesign).

(** The result is the options object handed to [new PackageBlockModel]. *)
Definition loadPackage (jsonModel : value) : M value :=
  do temp ← rename jsonModel;
  do package ← Get jsonModel "package";
  do dependencies ← Get jsonModel "dependencies";
  alloc (Object false [ ("model", temp.1); ("design", temp.2);
                        ("info", package); ("dependencies", dependencies) ]).

End loadPackage.

End Heap.

(** ** [loadPackage] writes only to objects it has allocated

    Fix the store [h0] at the start of the call. A value is fresh when it
    is not a reference to an object of [h0]. The invariant: the objects
    of [h0] are still there, unchanged, and the objects allocated since
    hold only fresh values. Every step of [Heap.rename] keeps it. *)

Section frame.

Import Heap.

Variable h0 : list object.

Definition fresh (v : value) : Prop :=
  match v with
  | Ref l => (length h0 ≤ l)%nat
  | _ => True
  end.

Definition fresh_props (ps : JsObject.t value) : Prop := Forall (λ p, fresh p.2) ps.

Definition inv (s : state) : Prop :=
  h0 `prefix_of` objects s
  ∧ ∀ l o, (length h0 ≤ l)%nat → objects s !! l = Some o → fresh_props (props o).

Definition preserves {A} (P : A → Prop) (m : M A) : Prop :=
  ∀ s, inv s → inv (m s).2 ∧ ∀ a, (m s).1 = Normal a → P a.

Lemma preserves_ret {A} (P : A → Prop) a : P a → preserves P (ret a).
Proof. intros Ha s Hs. split; [done |]. by intros a' [= <-]. Qed.

Lemma preserves_throw {A} (P : A → Prop) e : preserves P (throw e).
Proof. intros s Hs. by split. Qed.

Lemma preserves_bind {A B} (P : A → Prop) (Q : B → Prop) m f :
  preserves P m → (∀ a, P a → preserves Q (f a)) → preserves Q (bind m f).
Proof.
  intros Hm Hf s Hs. unfold bind. destruct (Hm s Hs) as [Hs' Ha].
  destruct (m s) as [[a | e] s']; cbn in *.
  - by apply Hf; [apply Ha |].
  - by split.
Qed.

Lemma preserves_weaken {A} (P Q : A → Prop) m :
  preserves P m → (∀ a, P a → Q a) → preserves Q m.
Proof. intros Hm HPQ s Hs. destruct (Hm s Hs) as [Hs' Ha]. split; [done |]. eauto. Qed.

Lemma preserves_forEach {K} (P : K → Prop) (body : K → M unit) items :
  (∀ item, P item → preserves (λ _, True) (body item)) →
  Forall P items → preserves (λ _, True) (forEach body items).
Proof.
  intros Hbody. induction 1 as [| item items Hitem _ IH]; cbn [forEach].
  - by apply preserves_ret.
  - eapply preserves_bind; [by apply Hbody |]. intros _ _. apply IH.
Qed.

(** *** The primitive steps *)

Lemma fresh_inherited k : fresh (inherited k).
Proof. unfold inherited. by case_bool_decide. Qed.

Lemma fresh_props_get ps k : fresh_props ps → fresh (default (inherited k) (JsObject.get ps k)).
Proof.
  intros Hps. induction Hps as [| [k' v'] ps Hv _ IH]; cbn.
  - apply fresh_inherited.
  - by case_decide.
Qed.

Lemma fresh_props_set ps k v : fresh_props ps → fresh v → fresh_props (JsObject.set ps k v).
Proof.
  intros Hps Hv. unfold JsObject.set. destruct (JsObject.get ps k).
  - induction Hps as [| [k' v'] ps Hv' Hps IH]; cbn; [constructor |].
    case_decide; by constructor.
  - induction Hps as [| [k' v'] ps Hv' Hps IH]; cbn; [by repeat constructor |].
    destruct (JsObject.comes_before k k'); by repeat constructor.
Qed.

Lemma Forall_filter_keep {A} (P Q : A → Prop) `{∀ x, Decision (Q x)} (l : list A) :
  Forall P l → Forall P (filter Q l).
Proof.
  rewrite !Forall_forall. intros Hl x Hx. apply list_elem_of_filter in Hx as [_ Hx]. auto.
Qed.

Lemma fresh_props_delete ps k : fresh_props ps → fresh_props (JsObject.delete ps k).
Proof. apply Forall_filter_keep. Qed.

Lemma preserves_read_any l : preserves (λ _, True) (read l).
Proof. intros s Hs. unfold read. by destruct (objects s !! l). Qed.

Lemma preserves_read l :
  (length h0 ≤ l)%nat → preserves (λ o, fresh_props (props o)) (read l).
Proof.
  intros Hl s Hs. unfold read. destruct (objects s !! l) as [o |] eqn:Ho; cbn.
  - split; [done |]. intros o' [= <-]. destruct Hs as [_ Hs]. by eapply Hs.
  - by split.
Qed.

Lemma preserves_write l o :
  (length h0 ≤ l)%nat → fresh_props (props o) → preserves (λ _, True) (write l o).
Proof.
  intros Hl Ho s [[k Hpre] Hs]. split; [| done]. unfold write. cbn. split.
  - exists (<[(l - length h0)%nat := o]> k). rewrite Hpre.
    by rewrite insert_app_r_alt.
  - intros l' o' Hl' Hlook. cbn in Hlook.
    destruct (decide (l = l')) as [<- | Hne].
    + destruct (decide (l < length (objects s))%nat).
      * rewrite list_lookup_insert_eq in Hlook by done. by simplify_eq.
      * rewrite list_insert_ge in Hlook by lia. by eapply Hs.
    + rewrite list_lookup_insert_ne in Hlook by done. by eapply Hs.
Qed.

Lemma preserves_alloc o : fresh_props (props o) → preserves fresh (alloc o).
Proof.
  intros Ho s [[k Hpre] Hs]. unfold alloc. cbn. split; [split |].
  - exists (k ++ [o]). by rewrite Hpre, app_assoc.
  - intros l' o' Hl' Hlook. cbn in Hlook.
    apply lookup_app_Some in Hlook as [Hlook | [_ Hlook]].
    + by eapply Hs.
    + apply list_lookup_singleton_Some in Hlook as [_ <-]. done.
  - intros a [= <-]. cbn. rewrite Hpre, length_app. lia.
Qed.

Lemma preserves_Get_any v k : preserves (λ _, True) (Get v k).
Proof.
  destruct v; cbn [Get]; try (by apply preserves_throw); try (by apply preserves_ret).
  eapply preserves_bind; [apply preserves_read_any |]. intros o _. by apply preserves_ret.
Qed.

Lemma fresh_string_property s k : fresh (string_property s k).
Proof.
  unfold string_property. destruct (JsObject.array_index k); [| apply fresh_inherited].
  destruct (String.get _ s); [done | apply fresh_inherited].
Qed.

Lemma preserves_Get v k : fresh v → preserves fresh (Get v k).
Proof.
  intros Hv. destruct v; cbn [Get]; try (by apply preserves_throw);
    try (apply preserves_ret; apply fresh_inherited).
  - apply preserves_ret, fresh_string_property.
  - eapply preserves_bind; [by apply preserves_read |].
    intros o Ho. by apply preserves_ret, fresh_props_get.
Qed.

Lemma preserves_Set v k x : fresh v → fresh x → preserves (λ _, True) (Set_ v k x).
Proof.
  intros Hv Hx. destruct v; cbn [Set_]; try (by apply preserves_throw);
    try (by apply preserves_ret).
  eapply preserves_bind; [by apply preserves_read |]. intros o Ho.
  case_bool_decide; [by apply preserves_ret |].
  apply preserves_write; [done |]. by apply fresh_props_set.
Qed.

Lemma preserves_Delete v k : fresh v → preserves (λ _, True) (Delete v k).
Proof.
  intros Hv. destruct v; cbn [Delete]; try (by apply preserves_throw);
    try (by apply preserves_ret).
  eapply preserves_bind; [by apply preserves_read |]. intros o Ho.
  apply preserves_write; [done |]. by apply fresh_props_delete.
Qed.

Lemma preserves_Object_keys v : preserves (λ _, True) (Object_keys v).
Proof.
  destruct v; cbn [Object_keys]; try (by apply preserves_throw);
    try (by apply preserves_ret).
  eapply preserves_bind; [apply preserves_read_any |]. intros o _. by apply preserves_ret.
Qed.

Lemma preserves_elements v : fresh v → preserves (Forall fresh) (elements v).
Proof.
  intros Hv. destruct v; cbn [elements]; try (by apply preserves_throw).
  eapply preserves_bind; [by apply preserves_read |]. intros o Ho.
  destruct (is_array o); [| by apply preserves_throw].
  apply preserves_ret. apply Forall_fmap.
  by apply Forall_filter_keep.
Qed.

(** *** [cloneDeep] returns a fresh value *)

Definition fresh_seen (seen : gmap nat nat) : Prop :=
  ∀ l l', seen !! l = Some l' → (length h0 ≤ l')%nat.

Definition cloned {A} (fresh_result : A → Prop) (r : A * gmap nat nat) : Prop :=
  fresh_result r.1 ∧ fresh_seen r.2.

Lemma preserves_clone_props clone ps seen :
  (∀ v seen', fresh_seen seen' → preserves (cloned fresh) (clone v seen')) →
  fresh_seen seen →
  preserves (cloned fresh_props) (clone_props clone ps seen).
Proof.
  intros Hclone. revert seen. induction ps as [| [k v] ps IH]; intros seen Hseen.
  - apply preserves_ret. by split; [constructor |].
  - cbn [clone_props].
    eapply preserves_bind; [by apply Hclone |]. intros r [Hr Hseen'].
    eapply preserves_bind; [by apply IH |]. intros rs [Hrs Hseen''].
    apply preserves_ret. split; [by constructor | done].
Qed.

Lemma preserves_baseClone fuel v seen :
  fresh_seen seen → preserves (cloned fresh) (baseClone fuel v seen).
Proof.
  revert v seen. induction fuel as [| fuel IH]; intros v seen Hseen;
    (destruct v as [| | b | n | str | l | name];
     cbn [baseClone]; try (by apply preserves_ret));
    (destruct (seen !! l) as [l' |] eqn:Hl;
     [apply preserves_ret; split; [by eapply Hseen | done] |]).
  - apply preserves_throw.
  - eapply preserves_bind; [apply preserves_read_any |]. intros o _.
    eapply preserves_bind; [apply preserves_alloc; constructor |].
    intros [| | | | | l' |] Hresult; try (by apply preserves_ret).
    eapply preserves_bind.
    { apply preserves_clone_props; [by apply IH |].
      intros l1 l2. rewrite lookup_insert. case_decide; [by intros [= <-] | apply Hseen]. }
    intros r [Hr Hseen'].
    eapply preserves_bind; [by apply preserves_write |]. intros _ _.
    by apply preserves_ret.
Qed.

Lemma preserves_cloneDeep v : preserves fresh (cloneDeep v).
Proof.
  intros s Hs. unfold cloneDeep.
  eapply (preserves_bind (cloned fresh)); [| | exact Hs].
  - apply preserves_baseClone. intros l l'. by rewrite lookup_empty.
  - intros r [Hr _]. by apply preserves_ret.
Qed.

(** *** The steps of [loadPackage] *)

Variable rng : nat → Q.
Variable builtin_text : string → string.
Variable number_text : Q → string.
Variable object_text : list object → nat → string.

Lemma preserves_ToPropertyKey v :
  preserves (λ _, True) (ToPropertyKey builtin_text number_text object_text v).
Proof. intros s Hs. by split. Qed.

Lemma preserves_generateNewId : preserves (λ _, True) (generateNewId rng).
Proof. intros s [Hpre Hs]. by split. Qed.

(** Apply the rule for the step at the head of a sequence. *)
Ltac step :=
  first
    [ apply preserves_ret; done
    | eapply preserves_bind;
      [ first [ apply preserves_Get; done
              | apply preserves_Set; done
              | apply preserves_Delete; done
              | apply preserves_elements; done
              | apply preserves_Object_keys
              | apply preserves_ToPropertyKey
              | apply preserves_generateNewId
              | apply preserves_cloneDeep
              | apply preserves_Get_any ]
      | intros ? ? ]
    | apply preserves_Set; done
    | apply preserves_Delete; done ].

Lemma preserves_renameBlock newIdMap block :
  fresh newIdMap → fresh block →
  preserves (λ _, True)
    (renameBlock rng builtin_text number_text object_text newIdMap block).
Proof. intros Hm Hb. unfold renameBlock. repeat step. Qed.

Lemma preserves_renameModel newIdMap models oldId :
  fresh newIdMap → fresh models →
  preserves (λ _, True)
    (renameModel builtin_text number_text object_text newIdMap models oldId).
Proof.
  intros Hm Hmodels. unfold renameModel. do 2 step.
  destruct (ToBoolean _); repeat step.
Qed.

Lemma preserves_updateModelIdsInLayer editor newIdMap layerIndex :
  fresh editor → fresh newIdMap →
  preserves (λ _, True)
    (updateModelIdsInLayer builtin_text number_text object_text editor newIdMap layerIndex).
Proof.
  intros He Hm. unfold updateModelIdsInLayer. do 4 step.
  apply (preserves_forEach (λ _, True)); [| by apply Forall_true].
  intros oldId _. by apply preserves_renameModel.
Qed.

Lemma preserves_renameWire newIdMap wire :
  fresh newIdMap → fresh wire →
  preserves (λ _, True)
    (renameWire builtin_text number_text object_text newIdMap wire).
Proof.
  intros Hm Hw. unfold renameWire. do 8 step.
  eapply preserves_bind.
  - destruct (ToBoolean _); repeat step.
  - intros _ _. destruct (ToBoolean _); repeat step.
Qed.

Lemma preserves_rename jsonModel :
  preserves (λ _, True)
    (rename rng builtin_text number_text object_text jsonModel).
Proof.
  unfold rename. do 4 step.
  eapply preserves_bind; [apply preserves_alloc; constructor |]. intros newIdMap Hm.
  do 3 step.
  eapply preserves_bind.
  { eapply preserves_forEach; [| eassumption].
    intros block Hb. by apply preserves_renameBlock. }
  intros _ _. eapply preserves_bind.
  { apply (preserves_forEach (λ _, True)); [| by apply Forall_true].
    intros i _. by apply preserves_updateModelIdsInLayer. }
  intros _ _. do 3 step.
  eapply preserves_bind.
  { eapply preserves_forEach; [| eassumption].
    intros wire Hw. by apply preserves_renameWire. }
  intros _ _. by apply preserves_ret.
Qed.

End frame.

(** ** The argument after the call *)

(** The JSON value a store holds at [v]: the whole structure reachable
    from it, to depth [fuel]. *)
Fixpoint snapshot (fuel : nat) (h : list Heap.object) (v : Heap.value) : option Json :=
  match v with
  | Heap.Null => Some JNull
  | Heap.Bool b => Some (JBool b)
  | Heap.Number n => Some (JNumber n)
  | Heap.Str s => Some (JText s)
  | Heap.Undefined | Heap.Builtin _ => None
  | Heap.Ref l =>
      match fuel with
      | O => None
      | S fuel' =>
          o ← h !! l;
          ps ← mapM (λ p, j ← snapshot fuel' h p.2; Some (p.1, j)) (Heap.props o);
          Some (if Heap.is_array o then JArray ps.*2 else JObject ps)
      end
  end.

Lemma snapshot_prefix fuel h h' v j :
  h `prefix_of` h' → snapshot fuel h v = Some j → snapshot fuel h' v = Some j.
Proof.
  intros Hpre. revert v j. induction fuel as [| fuel IH]; intros v j;
    destruct v as [| | b | n | s | l | name]; cbn [snapshot]; try done.
  destruct (h !! l) as [o |] eqn:Ho; [| done].
  rewrite (prefix_lookup_Some _ _ _ _ Ho Hpre). cbn.
  destruct (mapM _ (Heap.props o)) as [ps |] eqn:Hps; [| done]. cbn. intros <-.
  apply mapM_Some in Hps.
  assert (mapM (λ p, j ← snapshot fuel h' p.2; Some (p.1, j)) (Heap.props o) = Some ps)
    as ->; [| done].
  apply mapM_Some. eapply Forall2_impl; [exact Hps |].
  intros p q. cbn. destruct (snapshot fuel h p.2) as [jp |] eqn:Hj; [| done].
  by rewrite (IH _ _ Hj).
Qed.

Lemma Get_state v k s : (Heap.Get v k s).2 = s.
Proof.
  destruct v; cbn; try done.
  unfold Heap.bind, Heap.read. by destruct (Heap.objects s !! l).
Qed.

Section loadPackage_frame.

Variable rng : nat → Q.
Variable builtin_text : string → string.
Variable number_text : Q → string.
Variable object_text : list Heap.object → nat → string.

(** C5. Whatever value [jsonModel] is and whatever the store holds, every
    object that exists when [loadPackage] is called is the same object
    when the call has returned or thrown; so the argument, read as deeply
    as one likes, has the value it had before. *)
Theorem loadPackage_leaves_argument_unchanged jsonModel h pos :
  let after :=
    (Heap.loadPackage rng builtin_text number_text object_text jsonModel
       (Heap.State h pos)).2 in
  (∀ l o, h !! l = Some o → Heap.objects after !! l = Some o)
  ∧ (∀ fuel j, snapshot fuel h jsonModel = Some j →
               snapshot fuel (Heap.objects after) jsonModel = Some j).
Proof.
  cbn zeta.
  assert (h `prefix_of` Heap.objects
            (Heap.loadPackage rng builtin_text number_text object_text jsonModel
               (Heap.State h pos)).2) as Hpre.
  { assert (inv h (Heap.State h pos)) as Hinv.
    { split; [done |]. intros l o Hl Ho. apply lookup_lt_Some in Ho. cbn in Ho. lia. }
    destruct (preserves_rename h rng builtin_text number_text object_text jsonModel
                _ Hinv) as [[Hpre _] _].
    unfold Heap.loadPackage, Heap.bind.
    destruct (Heap.rename _ _ _ _ _ _) as [[temp | e] s1]; cbn [snd] in *; [| done].
    pose proof (Get_state jsonModel "package" s1) as Hp.
    destruct (Heap.Get jsonModel "package" s1) as [[package | e] s2];
      cbn [snd] in *; subst s2; [| done].
    pose proof (Get_state jsonModel "dependencies" s1) as Hd.
    destruct (Heap.Get jsonModel "dependencies" s1) as [[dependencies | e] s2];
      cbn [snd] in *; subst s2; [| done].
    unfold Heap.alloc. cbn. by apply prefix_app_r. }
  split.
  - intros l o Ho. by eapply prefix_lookup_Some.
  - intros fuel j. by apply snapshot_prefix.
Qed.

End loadPackage_frame.

(** ** Documents in the store

    [alloc_json] lays a JSON value out in the store, as [JSON.parse] does:
    one object per object or array. The records of the package document
    are JSON values ([doc_json], [result_json]), which ties the two
    descriptions of [loadPackage] together on concrete documents. *)

Definition array_props (vs : list Heap.value) : JsObject.t Heap.value :=
  zip ((λ i : nat, Js.toString 10 (Z.of_nat i)) <$> seq 0 (length vs)) vs.

Fixpoint alloc_json (j : Json) : Heap.M Heap.value :=
  match j with
  | JNull => Heap.ret Heap.Null
  | JBool b => Heap.ret (Heap.Bool b)
  | JNumber n => Heap.ret (Heap.Number n)
  | JText s => Heap.ret (Heap.Str s)
  | JArray items =>
      Heap.bind
        ((fix go (items : list Json) : Heap.M (list Heap.value) :=
            match items with
            | [] => Heap.ret []
            | item :: items' =>
                Heap.bind (alloc_json item) (λ v,
                Heap.bind (go items') (λ vs, Heap.ret (v :: vs)))
            end) items)
        (λ vs, Heap.alloc (Heap.Object true (array_props vs)))
  | JObject props =>
      Heap.bind
        ((fix go (props : list (string * Json)) : Heap.M (JsObject.t Heap.value) :=
            match props with
            | [] => Heap.ret []
            | (k, item) :: props' =>
                Heap.bind (alloc_json item) (λ v,
                Heap.bind (go props') (λ ps, Heap.ret ((k, v) :: ps)))
            end) props)
        (λ ps, Heap.alloc (Heap.Object false ps))
  end.

Definition id_json (v : JsValue) : Json :=
  match v with
  | JsString s => JText s
  | JsBuiltin _ => JNull
  end.

Definition block_json (b : Block.t) : Json :=
  JObject (("id", JText (Block.id b)) :: Block.attrs b).

Definition endpoint_json (e : Endpoint.t) : Json :=
  JObject [("block", id_json (Endpoint.block e)); ("port", Endpoint.port e)].

Definition wire_json (w : Wire.t) : Json :=
  JObject (("source", endpoint_json (Wire.source w))
           :: ("target", endpoint_json (Wire.target w)) :: Wire.attrs w).

Definition design_json (d : Design.t) : Json :=
  JObject (("graph", JObject [ ("blocks", JArray (block_json <$> Graph.blocks (Design.graph d)));
                               ("wires", JArray (wire_json <$> Graph.wires (Design.graph d))) ])
           :: Design.attrs d).

Definition model_json (b : ModelView.t) : Json :=
  JObject (("id", id_json (ModelView.id b)) :: ModelView.attrs b).

Definition layer_json (l : Layer.t) : Json :=
  JObject (("models", JObject (prod_map id model_json <$> Layer.models l)) :: Layer.attrs l).

Definition editor_json (e : Editor.t) : Json :=
  JObject (("layers", JArray (layer_json <$> Editor.layers e)) :: Editor.attrs e).

Definition doc_json (doc : PackageDoc.t) : Json :=
  JObject [ ("editor", editor_json (PackageDoc.editor doc));
            ("design", design_json (PackageDoc.design doc));
            ("package", PackageDoc.package doc);
            ("dependencies", PackageDoc.dependencies doc) ].

Definition result_json (out : PackageBlockModel.t) : Json :=
  JObject [ ("model", editor_json (PackageBlockModel.model out));
            ("design", design_json (PackageBlockModel.design out));
            ("info", PackageBlockModel.info out);
            ("dependencies", PackageBlockModel.dependencies out) ].

(** Run [loadPackage] on [doc] laid out in an empty store; report the
    JSON value of the result and of the argument afterwards. *)
Definition run_in_store (rng : nat → Q) (doc : PackageDoc.t)
  : option Json * option Json :=
  let unused_text : list Heap.object → nat → string := λ _ _, "[object Object]" in
  match alloc_json (doc_json doc) (Heap.State [] 0) with
  | (Normal jsonModel, s) =>
      match Heap.loadPackage rng v8_text (λ _, "NaN") unused_text jsonModel s with
      | (Normal result, s') =>
          (snapshot 8 (Heap.objects s') result, snapshot 8 (Heap.objects s') jsonModel)
      | (Throw _, s') => (None, snapshot 8 (Heap.objects s') jsonModel)
      end
  | (Throw _, _) => (None, None)
  end.

Example store_agrees_scenario :
  run_in_store counting (scenario_doc "a")
  = (Some (result_json (scenario_result u_counting (JsString u_counting))),
     Some (doc_json (scenario_doc "a"))).
Proof. vm_compute. reflexivity. Qed.

Example store_agrees_orphan :
  run_in_store counting orphan_doc
  = (Some (result_json orphan_result), Some (doc_json orphan_doc)).
Proof. vm_compute. reflexivity. Qed.

Example store_agrees_collision :
  (loadPackage zeros v8_text collision_doc 0%nat).1
  = Normal (PackageBlockModel.mk
      (Editor.mk
         [ Layer.mk [ (u_zeros, ModelView.mk (JsString u_zeros) [("name", JText "first")]) ] [];
           Layer.mk [] [] ] [])
      (Design.mk (Graph.mk [ Block.mk u_zeros [] ] []) [])
      JNull JNull)
  ∧ (run_in_store zeros collision_doc).1
    = Some (result_json (PackageBlockModel.mk
        (Editor.mk
           [ Layer.mk [ (u_zeros, ModelView.mk (JsString u_zeros) [("name", JText "first")]) ] [];
             Layer.mk [] [] ] [])
        (Design.mk (Graph.mk [ Block.mk u_zeros [] ] []) [])
        JNull JNull)).
Proof. split; vm_compute; reflexivity. Qed.

(** A document without layers: the call throws, after the blocks were
    renamed in the copy; the argument is as it was. *)
Definition no_layers_doc : PackageDoc.t :=
  PackageDoc.mk (Editor.mk [] [])
    (Design.mk (Graph.mk [ Block.mk "a" [] ] []) []) JNull JNull.

Example store_agrees_no_layers :
  (loadPackage counting v8_text no_layers_doc 0%nat).1 = Throw TypeError
  ∧ run_in_store counting no_layers_doc = (None, Some (doc_json no_layers_doc)).
Proof. split; vm_compute; reflexivity. Qed.

(** The scenario document laid out in a store, and its root. *)
Definition scenario_store : list Heap.object :=
  Eval vm_compute in
    Heap.objects (alloc_json (doc_json (scenario_doc "a")) (Heap.State [] 0)).2.

Definition scenario_root : Heap.value :=
  Eval vm_compute in
    match (alloc_json (doc_json (scenario_doc "a")) (Heap.State [] 0)).1 with
    | Normal v => v
    | Throw _ => Heap.Undefined
    end.

Example scenario_store_holds_doc :
  snapshot 8 scenario_store scenario_root = Some (doc_json (scenario_doc "a")).
Proof. vm_compute. reflexivity. Qed.

Lemma loadPackage_leaves_argument_unchanged_witness :
  let after :=
    (Heap.loadPackage counting v8_text (λ _, "NaN") (λ _ _, "[object Object]")
       scenario_root (Heap.State scenario_store 0)).2 in
  (∀ l o, scenario_store !! l = Some o → Heap.objects after !! l = Some o)
  ∧ (∀ fuel j, snapshot fuel scenario_store scenario_root = Some j →
               snapshot fuel (Heap.objects after) scenario_root = Some j).
Proof.
  apply (loadPackage_leaves_argument_unchanged counting v8_text (λ _, "NaN")
           (λ _ _, "[object Object]") scenario_root scenario_store 0%nat).
Defined.

(** A larger document: a repeated block id, an array-index key, a dangling
    wire end, entries in both layers and attributes everywhere. *)
Definition busy_doc : PackageDoc.t :=
  PackageDoc.mk
    (Editor.mk
       [ Layer.mk [ ("2", ModelView.mk (JsString "2") []);
                    ("10", ModelView.mk (JsString "10") [("x", JNumber 100)]);
                    ("x", ModelView.mk (JsString "x") [("selected", JBool true)]) ]
                  [("type", JText "diagram-nodes")];
         Layer.mk [ ("y", ModelView.mk (JsString "y") []);
                    ("10", ModelView.mk (JsString "10") [("points", JArray [JNumber 1; JNumber 2])]) ]
                  [("type", JText "diagram-links")];
         Layer.mk [ ("x", ModelView.mk (JsString "x") []) ] [] ]
       [("zoom", JNumber 100)])
    (Design.mk
       (Graph.mk
          [ Block.mk "10" [("type", JText "basic.constant")];
            Block.mk "x" [("type", JText "basic.code"); ("data", JObject [("code", JText "")])];
            Block.mk "x" [("type", JText "basic.output")] ]
          [ Wire.mk (Endpoint.mk (JsString "10") (JText "out"))
                    (Endpoint.mk (JsString "x") (JText "in")) [("size", JNumber 1)];
            Wire.mk (Endpoint.mk (JsString "x") (JText "out"))
                    (Endpoint.mk (JsString "ghost") (JText "in")) [] ])
       [("board", JText "Python3-Noetic")])
    (JObject [("name", JText "Adder")]) (JObject []).

Definition completion_json (c : Completion PackageBlockModel.t) : option Json :=
  match c with
  | Normal out => Some (result_json out)
  | Throw _ => None
  end.

Example store_agrees_busy :
  run_in_store counting busy_doc
  = (completion_json (loadPackage counting v8_text busy_doc 0%nat).1,
     Some (doc_json busy_doc))
  ∧ is_Some (run_in_store counting busy_doc).1.
Proof. split; vm_compute; [reflexivity | by eexists]. Qed.

Example busy_layer_keys :
  (λ out, (JsObject.keys ∘ Layer.models) <$> out_layers out)
    <$> (loadPackage counting v8_text busy_doc 0%nat).1
  = Normal [ [ "2"; "01234567-89ab-4cde-b012-3456789abcde";
               "ef012345-6789-4abc-9ef0-123456789abc" ];
             [ "y"; "01234567-89ab-4cde-b012-3456789abcde" ];
             [ "x" ] ].
Proof. vm_compute. reflexivity. Qed.

(** The result for [proto_doc] in the store: the wire ends hold the
    prototype object there too. *)
Fixpoint follow (path : list string) (v : Heap.value) : Heap.M Heap.value :=
  match path with
  | [] => Heap.ret v
  | k :: path' => Heap.bind (Heap.Get v k) (follow path')
  end.

Example store_proto_endpoint :
  match alloc_json (doc_json proto_doc) (Heap.State [] 0) with
  | (Normal jsonModel, s) =>
      (Heap.bind (Heap.loadPackage counting v8_text (λ _, "NaN") (λ _ _, "") jsonModel)
                 (λ result,
        Heap.bind (follow ["design"; "graph"; "wires"; "0"; "source"; "block"] result)
                  (λ source,
        Heap.bind (follow ["design"; "graph"; "blocks"; "0"; "id"] result)
                  (λ id, Heap.ret (source, id)))) s).1
  | (Throw e, _) => Throw e
  end
  = Normal (Heap.Builtin "__proto__", Heap.Str u_counting).
Proof. vm_compute. reflexivity. Qed.

(** * Further properties of [loadPackage] *)

(** ** Objects as lists: where an assignment and a deletion land *)

Section JsObject_order.

Context {V : Type}.
Implicit Types (o : JsObject.t V) (k : string) (v : V).

Lemma JsObject_get_absent o k : k ∉ JsObject.keys o → JsObject.get o k = None.
Proof.
  intros Hk. rewrite JsObject_get_to_map.
  destruct (to_map o !! k) eqn:Hlook; [| done].
  exfalso. apply Hk, JsObject_keys_to_map. by rewrite Hlook.
Qed.

Lemma JsObject_get_middle o1 o2 k v :
  k ∉ JsObject.keys o1 → JsObject.get (o1 ++ (k, v) :: o2) k = Some v.
Proof.
  induction o1 as [| [k' v'] o1 IH]; cbn.
  - by rewrite decide_True.
  - rewrite not_elem_of_cons. intros [Hne Hk]. rewrite decide_False by done. by apply IH.
Qed.

(** A key that is no array index is created after all the others. *)
Lemma JsObject_add_last o k v :
  JsObject.array_index k = None → JsObject.add o k v = o ++ [(k, v)].
Proof.
  intros Hk. induction o as [| [k' v'] o IH]; cbn; [done |].
  unfold JsObject.comes_before. rewrite Hk. by rewrite IH.
Qed.

Lemma JsObject_set_last o k v :
  k ∉ JsObject.keys o → JsObject.array_index k = None →
  JsObject.set o k v = o ++ [(k, v)].
Proof.
  intros Hk Hindex. unfold JsObject.set. rewrite JsObject_get_absent by done.
  by apply JsObject_add_last.
Qed.

Lemma JsObject_delete_absent o k : k ∉ JsObject.keys o → JsObject.delete o k = o.
Proof.
  unfold JsObject.delete, JsObject.keys. induction o as [| [k' v'] o IH]; [done |].
  rewrite fmap_cons, not_elem_of_cons. cbn [fst]. intros [Hne Hk].
  rewrite filter_cons. cbn [fst]. rewrite decide_True by done. by rewrite IH.
Qed.

Lemma JsObject_delete_middle o1 o2 k v :
  k ∉ JsObject.keys o1 → k ∉ JsObject.keys o2 →
  JsObject.delete (o1 ++ (k, v) :: o2) k = o1 ++ o2.
Proof.
  intros H1 H2. unfold JsObject.delete.
  rewrite filter_app, filter_cons. cbn [fst]. rewrite decide_False by (by intros ?).
  fold (JsObject.delete o1 k) (JsObject.delete o2 k).
  by rewrite !JsObject_delete_absent.
Qed.

End JsObject_order.

(** ** One layer, as a list: entries without a new id stay in place, the
    others are appended under their new ids *)

Section layer_rebuilt.

Variable builtin_text : string → string.
Variable m : NewIdMap.t.

Implicit Types (o pre rest post : JsObject.t ModelView.t).

(** The entries the loop leaves where they are. *)
Definition kept o : JsObject.t ModelView.t :=
  filter (λ p, m !! p.1 = None) o.

(** The entries the loop moves, under their new keys and with their new ids. *)
Definition moved o : JsObject.t ModelView.t :=
  omap (λ p, n ← m !! p.1; Some (n, ModelView.set_id (JsString n) p.2)) o.

(** The layer built from scratch: the pure counterpart of the loop. *)
Definition rebuilt o : JsObject.t ModelView.t := kept o ++ moved o.

Lemma kept_cons_None k v o : m !! k = None → kept ((k, v) :: o) = (k, v) :: kept o.
Proof. intros Hk. unfold kept. rewrite filter_cons. cbn [fst]. by rewrite decide_True. Qed.

Lemma kept_cons_Some k v o n : m !! k = Some n → kept ((k, v) :: o) = kept o.
Proof.
  intros Hk. unfold kept. rewrite filter_cons. cbn [fst].
  rewrite decide_False; [done | by rewrite Hk].
Qed.

Lemma moved_cons_None k v o : m !! k = None → moved ((k, v) :: o) = moved o.
Proof. intros Hk. unfold moved. cbn. by rewrite Hk. Qed.

Lemma moved_cons_Some k v o n :
  m !! k = Some n →
  moved ((k, v) :: o) = (n, ModelView.set_id (JsString n) v) :: moved o.
Proof. intros Hk. unfold moved. cbn. by rewrite Hk. Qed.

Lemma renameModel_plain_None o k :
  k ∉ Object_prototype_names → m !! k = None →
  renameModel builtin_text m o k = Normal o.
Proof.
  intros Hplain Hk. unfold renameModel, NewIdMap.get. rewrite Hk.
  by rewrite bool_decide_eq_false_2.
Qed.

Lemma renameModel_plain_Some o k n v :
  m !! k = Some n → n ≠ EmptyString → JsObject.get o k = Some v →
  renameModel builtin_text m o k
  = Normal (JsObject.delete (JsObject.set o n (ModelView.set_id (JsString n) v)) k).
Proof.
  intros Hk Hn Hv. unfold renameModel, NewIdMap.get. rewrite Hk, Hv. cbn.
  by apply String.eqb_neq in Hn as ->.
Qed.

Lemma forEach_renameModel_rebuilt pre rest post :
  NoDup (JsObject.keys (pre ++ rest ++ post)) →
  (∀ k, k ∈ JsObject.keys rest → k ∉ Object_prototype_names) →
  (∀ k n, k ∈ JsObject.keys rest → m !! k = Some n →
     n ≠ EmptyString ∧ JsObject.array_index n = None
     ∧ (n ∉ JsObject.keys (pre ++ rest ++ post))) →
  (∀ k1 k2 n, k1 ∈ JsObject.keys rest → k2 ∈ JsObject.keys rest →
     m !! k1 = Some n → m !! k2 = Some n → k1 = k2) →
  forEach (renameModel builtin_text m) (JsObject.keys rest) (pre ++ rest ++ post)
  = Normal (pre ++ kept rest ++ post ++ moved rest).
Proof.
  revert pre post. induction rest as [| [k v] rest IH]; intros pre post Hnd Hplain Hnew Hinj.
  { cbn. by rewrite app_nil_r. }
  assert (JsObject.keys (pre ++ ((k, v) :: rest) ++ post)
          ≡ₚ k :: JsObject.keys (pre ++ rest ++ post)) as Hperm.
  { unfold JsObject.keys. rewrite !fmap_app, fmap_cons. cbn [fst].
    by rewrite <-app_comm_cons, <-Permutation_middle. }
  rewrite Hperm in Hnd. apply NoDup_cons in Hnd as [Hk Hnd].
  assert ((k ∉ JsObject.keys pre) ∧ (k ∉ JsObject.keys (rest ++ post))) as [Hkpre Hkrest].
  { unfold JsObject.keys in *. rewrite !fmap_app, !elem_of_app in *. tauto. }
  assert (∀ k', k' ∈ JsObject.keys rest → k' ∈ JsObject.keys ((k, v) :: rest)) as Hsub.
  { intros k' Hk'. unfold JsObject.keys. rewrite fmap_cons. by right. }
  assert (k ∈ JsObject.keys ((k, v) :: rest)) as Hhead.
  { unfold JsObject.keys. rewrite fmap_cons. left. }
  change (JsObject.keys ((k, v) :: rest)) with (k :: JsObject.keys rest) at 1.
  cbn [forEach].
  destruct (m !! k) as [n |] eqn:Hmk.
  - destruct (Hnew k n Hhead Hmk) as (Hne & Hindex & Hfresh).
    rewrite Hperm, not_elem_of_cons in Hfresh. destruct Hfresh as [Hnk Hfresh].
    rewrite (renameModel_plain_Some _ k n v); [| done | done | by apply JsObject_get_middle].
    rewrite JsObject_set_last; [| by rewrite Hperm, not_elem_of_cons | done].
    rewrite <-!app_assoc. rewrite <-app_comm_cons.
    rewrite JsObject_delete_middle; [| done |].
    2:{ unfold JsObject.keys in *. rewrite !fmap_app, !elem_of_app in *. cbn.
        rewrite list_elem_of_singleton. intros [Hin | [Hin | Hin]]; [tauto | tauto | done]. }
    cbn [mbind Completion_bind].
    rewrite (IH pre (post ++ [(n, ModelView.set_id (JsString n) v)])).
    + rewrite (kept_cons_Some _ _ _ n), (moved_cons_Some _ _ _ n) by done.
      by rewrite <-app_assoc.
    + unfold JsObject.keys in *. rewrite !app_assoc, fmap_app. cbn.
      apply NoDup_app. split; [by rewrite <-app_assoc |]. split; [| apply NoDup_singleton].
      intros x Hx Hin. apply list_elem_of_singleton in Hin. subst x.
      apply Hfresh. by rewrite <-app_assoc in Hx.
    + intros k' Hk'. by apply Hplain, Hsub.
    + intros k' n' Hk' Hn'.
      destruct (Hnew k' n' (Hsub _ Hk') Hn') as (Hne' & Hindex' & Hfresh').
      split; [done |]. split; [done |].
      rewrite Hperm, not_elem_of_cons in Hfresh'. destruct Hfresh' as [_ Hfresh'].
      unfold JsObject.keys in *. rewrite !app_assoc, fmap_app, elem_of_app. cbn.
      rewrite list_elem_of_singleton. rewrite <-app_assoc. intros [Hin | ->]; [done |].
      assert (k = k') as <- by (by apply (Hinj k k' n); [| apply Hsub | |]).
      apply Hkrest. rewrite fmap_app, elem_of_app. by left.
    + intros k1 k2 n' H1 H2. apply Hinj; by apply Hsub.
  - rewrite renameModel_plain_None; [| by apply Hplain | done].
    cbn [mbind Completion_bind].
    replace (pre ++ ((k, v) :: rest) ++ post) with ((pre ++ [(k, v)]) ++ rest ++ post)
      by (by rewrite <-app_assoc).
    assert (JsObject.keys ((pre ++ [(k, v)]) ++ rest ++ post)
            ≡ₚ k :: JsObject.keys (pre ++ rest ++ post)) as Hperm'.
    { rewrite <-Hperm. by rewrite <-app_assoc. }
    rewrite (IH (pre ++ [(k, v)]) post).
    + rewrite kept_cons_None, moved_cons_None by done. by rewrite <-app_assoc.
    + rewrite Hperm'. by apply NoDup_cons.
    + intros k' Hk'. by apply Hplain, Hsub.
    + intros k' n' Hk' Hn'.
      destruct (Hnew k' n' (Hsub _ Hk') Hn') as (Hne' & Hindex' & Hfresh').
      split; [done |]. split; [done |]. by rewrite Hperm', <-Hperm.
    + intros k1 k2 n' H1 H2. apply Hinj; by apply Hsub.
Qed.

End layer_rebuilt.

(** ** A generated id is never an array index *)

Lemma has_layout_literal layout s (i : nat) c :
  has_layout layout s = true → layout !! i = Some (Lit c) → String.get i s = Some c.
Proof.
  revert s i. induction layout as [| f layout IH]; intros s i Hs Hi; [done |].
  destruct s as [| c' s]; [done |]. cbn [has_layout] in Hs.
  apply andb_true_iff in Hs as [Hf Hs].
  destruct i as [| i]; cbn in *.
  - simplify_eq. cbn in Hf. by apply Ascii.eqb_eq in Hf as ->.
  - by apply IH.
Qed.

Lemma parse_digits_not_digit s (i : nat) c acc :
  String.get i s = Some c → JsObject.digit_value c = None →
  JsObject.parse_digits acc s = None.
Proof.
  revert i acc. induction s as [| c' s IH]; intros i acc Hi Hc; [done |].
  cbn [JsObject.parse_digits]. destruct i as [| i]; cbn in Hi.
  - simplify_eq. by rewrite Hc.
  - destruct (JsObject.digit_value c'); [| done]. cbn. by eapply IH.
Qed.

Lemma uuid_v4_not_array_index s : is_uuid_v4 s = true → JsObject.array_index s = None.
Proof.
  intros Hs. unfold JsObject.array_index.
  rewrite (parse_digits_not_digit s 8 "-"); [by destruct s | | done].
  by apply (has_layout_literal uuid_v4_layout).
Qed.

(** ** The whole import, step by step *)

Section loadPackage_steps.

Variable rng : nat → Q.
Variable builtin_text : string → string.

Implicit Types (doc : PackageDoc.t) (out : PackageBlockModel.t).

Lemma loadPackage_run doc pos :
  loadPackage rng builtin_text doc pos
  = (editor ← forEach (updateModelIdsInLayer builtin_text (id_mapping rng doc pos))
                      [0%nat; 1%nat] (PackageDoc.editor doc);
     Normal (PackageBlockModel.mk editor
               (Design.mk
                  (Graph.mk (new_blocks rng doc pos)
                     (renameWire builtin_text (id_mapping rng doc pos) <$> doc_wires doc))
                  (Design.attrs (PackageDoc.design doc)))
               (PackageDoc.package doc) (PackageDoc.dependencies doc)),
     (renameBlocks rng (doc_blocks doc) ∅ pos).2).
Proof.
  unfold loadPackage, new_blocks, id_mapping, doc_blocks, doc_wires, cloneDeep.
  unfold rand_bind, rand_ret.
  by destruct (renameBlocks rng _ ∅ pos) as [[blocks m] pos'].
Qed.

(** The two loops of a run that returns, and where their results go. *)
Lemma loadPackage_layers doc pos out :
  (loadPackage rng builtin_text doc pos).1 = Normal out →
  ∃ l0 l1 rest o0 o1,
    doc_layers doc = l0 :: l1 :: rest
    ∧ forEach (renameModel builtin_text (id_mapping rng doc pos))
              (JsObject.keys (Layer.models l0)) (Layer.models l0) = Normal o0
    ∧ forEach (renameModel builtin_text (id_mapping rng doc pos))
              (JsObject.keys (Layer.models l1)) (Layer.models l1) = Normal o1
    ∧ PackageBlockModel.model out
      = Editor.mk (Layer.set_models o0 l0 :: Layer.set_models o1 l1 :: rest)
                  (Editor.attrs (PackageDoc.editor doc)).
Proof.
  rewrite loadPackage_run. cbn [fst forEach]. unfold updateModelIdsInLayer, doc_layers.
  destruct (Editor.layers (PackageDoc.editor doc)) as [| l0 [| l1 rest]] eqn:Hlayers;
    cbn; [done | |].
  - by destruct (forEach _ _ (Layer.models l0)).
  - destruct (forEach _ _ (Layer.models l0)) as [o0 |] eqn:H0; cbn; [| done].
    destruct (forEach _ _ (Layer.models l1)) as [o1 |] eqn:H1; cbn; [| done].
    intros [= <-]. by exists l0, l1, rest, o0, o1.
Qed.

Lemma loadPackage_layer_loop doc pos out (i : nat) l :
  (loadPackage rng builtin_text doc pos).1 = Normal out →
  (i < 2)%nat → doc_layers doc !! i = Some l →
  ∃ o, forEach (renameModel builtin_text (id_mapping rng doc pos))
               (JsObject.keys (Layer.models l)) (Layer.models l) = Normal o
       ∧ out_layers out !! i = Some (Layer.set_models o l).
Proof.
  intros Hrun Hi Hl.
  destruct (loadPackage_layers doc pos out Hrun)
    as (l0 & l1 & rest & o0 & o1 & Hlayers & H0 & H1 & Hout).
  unfold out_layers. rewrite Hout. rewrite Hlayers in Hl.
  destruct i as [| [| i]]; [| | lia]; cbn in *; simplify_eq; eauto.
Qed.

End loadPackage_steps.

Section loadPackage_more.

Variable rng : nat → Q.
Variable builtin_text : string → string.

Implicit Types (doc : PackageDoc.t) (out : PackageBlockModel.t).

(** The loop over layer 0 or 1 of a document whose keys and generated ids
    do not collide. *)
Lemma layer_loop_rebuilt doc pos (i : nat) l :
  valid_random rng → well_formed doc → plain_keys doc →
  NoDup (fresh_ids rng doc pos) → ids_unused doc (fresh_ids rng doc pos) →
  (i < 2)%nat → doc_layers doc !! i = Some l →
  forEach (renameModel builtin_text (id_mapping rng doc pos))
          (JsObject.keys (Layer.models l)) (Layer.models l)
  = Normal (rebuilt (id_mapping rng doc pos) (Layer.models l)).
Proof.
  intros Hvalid [_ Hwf] Hplain Hnd Hunused Hi Hl.
  pose proof (forEach_renameModel_rebuilt builtin_text (id_mapping rng doc pos)
                [] (Layer.models l) []) as Hrebuilt.
  rewrite !app_nil_r in Hrebuilt. cbn [app] in Hrebuilt.
  apply Hrebuilt.
  - apply Hwf, list_elem_of_lookup. exists i. by rewrite lookup_take_lt.
  - intros k Hk. unfold plain_keys in Hplain. rewrite Forall_forall in Hplain.
    by eapply Hplain, renamed_layer_keys_elem.
  - intros k n Hk Hn. apply id_mapping_sound in Hn as (_ & Hfresh & Hne).
    split; [done |]. split.
    + apply uuid_v4_not_array_index.
      pose proof (generated_ids_uuid_v4 rng (length (doc_blocks doc)) pos Hvalid) as Hall.
      rewrite Forall_forall in Hall. by apply Hall.
    + intros Hin. unfold ids_unused in Hunused. rewrite Forall_forall in Hunused.
      by eapply Hunused; [eapply renamed_layer_keys_elem |].
  - intros k1 k2 n _ _. by apply id_mapping_inj.
Qed.





End loadPackage_more.

(** ** More on the id mapping: which block an old id is sent to *)

Section renameBlocks_more.

Variable rng : nat → Q.

Implicit Types (blocks : list Block.t) (m : NewIdMap.t).

Lemma renameBlocks_map_other blocks m pos k :
  k ∉ Block.id <$> blocks → (renameBlocks rng blocks m pos).1.2 !! k = m !! k.
Proof.
  revert m pos. induction blocks as [| b blocks IH]; intros m pos Hk; [done |].
  rewrite fmap_cons, not_elem_of_cons in Hk. destruct Hk as [Hne Hk].
  rewrite renameBlocks_cons. cbn. rewrite IH by done.
  unfold NewIdMap.set. case_bool_decide; [done |]. by rewrite lookup_insert_ne.
Qed.

(** An old id is sent to the new id of the last block that carried it. *)
Lemma renameBlocks_map_last blocks m pos (j : nat) b :
  blocks !! j = Some b → Block.id b ≠ "__proto__" →
  (∀ (j' : nat) b', (j < j')%nat → blocks !! j' = Some b' → Block.id b' ≠ Block.id b) →
  ∃ b', (renameBlocks rng blocks m pos).1.1 !! j = Some b'
        ∧ (renameBlocks rng blocks m pos).1.2 !! Block.id b = Some (Block.id b').
Proof.
  revert m pos j. induction blocks as [| b0 blocks IH]; intros m pos j Hj Hproto Hlast;
    [done |].
  rewrite renameBlocks_cons. cbn. destruct j as [| j]; cbn in *.
  - simplify_eq. eexists. split; [done |]. cbn.
    rewrite renameBlocks_map_other.
    + unfold NewIdMap.set. rewrite bool_decide_eq_false_2 by done.
      by rewrite lookup_insert_eq.
    + intros Hin. apply list_elem_of_fmap in Hin as (b' & Heq & Hin).
      apply list_elem_of_lookup in Hin as [j' Hj'].
      by apply (Hlast (S j') b'); [lia | |].
  - apply IH; [done | done |].
    intros j' b' Hlt Hj'. apply (Hlast (S j') b'); [lia | done].
Qed.

(** When the old ids are pairwise distinct, block by block. *)
Lemma renameBlocks_map_ids blocks m pos :
  NoDup (Block.id <$> blocks) → "__proto__" ∉ Block.id <$> blocks →
  omap (λ k, (renameBlocks rng blocks m pos).1.2 !! k) (Block.id <$> blocks)
  = Block.id <$> (renameBlocks rng blocks m pos).1.1.
Proof.
  revert m pos. induction blocks as [| b blocks IH]; intros m pos Hnd Hproto; [done |].
  rewrite fmap_cons in Hnd, Hproto. apply NoDup_cons in Hnd as [Hb Hnd].
  apply not_elem_of_cons in Hproto as [Hne Hproto].
  rewrite renameBlocks_cons. cbn.
  rewrite renameBlocks_map_other by done.
  unfold NewIdMap.set at 1. rewrite bool_decide_eq_false_2 by done.
  rewrite lookup_insert_eq. f_equal. by apply IH.
Qed.

End renameBlocks_more.

(** The two ends of every wire, in wire order. *)
Definition wire_ends (wires : list Wire.t) : list Endpoint.t :=
  w ← wires; [Wire.source w; Wire.target w].

Section wires_more.

Variable rng : nat → Q.
Variable builtin_text : string → string.

Implicit Types (doc : PackageDoc.t) (out : PackageBlockModel.t).

Lemma wire_ends_renameWire m wires :
  wire_ends (renameWire builtin_text m <$> wires)
  = renameEndpoint builtin_text m <$> wire_ends wires.
Proof.
  unfold wire_ends. induction wires as [| w wires IH]; [done |].
  rewrite fmap_cons, !bind_cons, fmap_app, IH. done.
Qed.

Lemma out_wire_ends doc pos out :
  (loadPackage rng builtin_text doc pos).1 = Normal out →
  wire_ends (out_wires out)
  = renameEndpoint builtin_text (id_mapping rng doc pos) <$> wire_ends (doc_wires doc).
Proof.
  intros Hrun. apply loadPackage_design in Hrun as (Hd & _).
  unfold out_wires. rewrite Hd. apply wire_ends_renameWire.
Qed.

(** X4. Which block a renamed wire end names. If block number [j] of the
    input has an id (other than ["__proto__"]) that no later block has,
    every wire end that named this id names block number [j] of the
    result; its port is kept. With pairwise distinct block ids this is
    every block; of blocks sharing an id, the last one gets the wires. *)
Theorem loadPackage_wire_end_block doc pos out (j : nat) b :
  (loadPackage rng builtin_text doc pos).1 = Normal out →
  doc_blocks doc !! j = Some b → Block.id b ≠ "__proto__" →
  (∀ (j' : nat) b', (j < j')%nat → doc_blocks doc !! j' = Some b' →
     Block.id b' ≠ Block.id b) →
  ∃ b', out_blocks out !! j = Some b'
    ∧ ∀ (p : nat) e,
        wire_ends (doc_wires doc) !! p = Some e →
        to_key builtin_text (Endpoint.block e) = Block.id b →
        wire_ends (out_wires out) !! p
        = Some (Endpoint.mk (JsString (Block.id b')) (Endpoint.port e)).
Proof.
  intros Hrun Hj Hproto Hlast.
  destruct (renameBlocks_map_last rng (doc_blocks doc) ∅ pos j b Hj Hproto Hlast)
    as (b' & Hb' & Hmap).
  exists b'. split.
  { apply loadPackage_design in Hrun as (Hd & _). unfold out_blocks. by rewrite Hd. }
  intros p e Hp Hkey.
  rewrite (out_wire_ends _ _ _ Hrun), list_lookup_fmap, Hp. cbn. f_equal.
  fold (id_mapping rng doc pos) in Hmap.
  pose proof (id_mapping_sound _ _ _ _ _ Hmap) as (_ & _ & Hne).
  rewrite (renameEndpoint_mapped _ _ _ (Block.id b')); [done | by rewrite Hkey | done].
Qed.

(** X5. Connectivity is kept. When the generated ids are pairwise distinct,
    two wire ends that name blocks of the input name the same block id
    after the import exactly when they did before. *)
Theorem loadPackage_keeps_connectivity doc pos out (p q : nat) e1 e2 :
  NoDup (fresh_ids rng doc pos) →
  (loadPackage rng builtin_text doc pos).1 = Normal out →
  wire_ends (doc_wires doc) !! p = Some e1 →
  wire_ends (doc_wires doc) !! q = Some e2 →
  to_key builtin_text (Endpoint.block e1) ∈ Block.id <$> doc_blocks doc →
  to_key builtin_text (Endpoint.block e2) ∈ Block.id <$> doc_blocks doc →
  to_key builtin_text (Endpoint.block e1) ≠ "__proto__" →
  to_key builtin_text (Endpoint.block e2) ≠ "__proto__" →
  ∃ e1' e2',
    wire_ends (out_wires out) !! p = Some e1'
    ∧ wire_ends (out_wires out) !! q = Some e2'
    ∧ (Endpoint.block e1' = Endpoint.block e2'
       ↔ to_key builtin_text (Endpoint.block e1) = to_key builtin_text (Endpoint.block e2)).
Proof.
  intros Hnd Hrun Hp Hq Hin1 Hin2 Hproto1 Hproto2.
  destruct (id_mapping_complete rng doc pos _ Hin1 Hproto1) as [n1 Hn1].
  destruct (id_mapping_complete rng doc pos _ Hin2 Hproto2) as [n2 Hn2].
  pose proof (id_mapping_sound _ _ _ _ _ Hn1) as (_ & _ & Hne1).
  pose proof (id_mapping_sound _ _ _ _ _ Hn2) as (_ & _ & Hne2).
  do 2 eexists. rewrite (out_wire_ends _ _ _ Hrun), !list_lookup_fmap, Hp, Hq. cbn.
  split; [done |]. split; [done |].
  rewrite (renameEndpoint_mapped _ _ _ n1), (renameEndpoint_mapped _ _ _ n2) by done.
  cbn. split.
  - intros [= <-]. by eapply id_mapping_inj.
  - intros Heq. rewrite Heq in Hn1. congruence.
Qed.

(** X9. A wire end whose block id names a member of [Object.prototype]
    that no block carries (or is ["__proto__"], carried or not) is not
    passed through: the lookup in the plain-object id map finds the
    inherited member, and the wire end is overwritten with it. *)
Theorem loadPackage_inherited_wire_end doc pos out (p : nat) e :
  (loadPackage rng builtin_text doc pos).1 = Normal out →
  wire_ends (doc_wires doc) !! p = Some e →
  to_key builtin_text (Endpoint.block e) ∈ Object_prototype_names →
  to_key builtin_text (Endpoint.block e) ∉ Block.id <$> doc_blocks doc
  ∨ to_key builtin_text (Endpoint.block e) = "__proto__" →
  wire_ends (out_wires out) !! p
  = Some (Endpoint.mk (JsBuiltin (to_key builtin_text (Endpoint.block e))) (Endpoint.port e)).
Proof.
  intros Hrun Hp Hname Hk.
  rewrite (out_wire_ends _ _ _ Hrun), list_lookup_fmap, Hp. cbn. f_equal.
  assert (id_mapping rng doc pos !! to_key builtin_text (Endpoint.block e) = None) as Hnone.
  { destruct Hk as [Hk | ->]; [by apply id_mapping_absent | apply id_mapping_proto]. }
  unfold renameEndpoint, NewIdMap.get. rewrite Hnone.
  by rewrite bool_decide_eq_true_2.
Qed.

End wires_more.

(** ** The draws of [Math.random] *)

(** The number of placeholders in a template. *)
Definition placeholders (template : string) : nat :=
  length (filter (λ c, matches_xy c = true) (String.list_ascii_of_string template)).

Section draws.

Variables rng rng' : nat → Q.

Lemma replace_xy_draws template pos :
  (replace_xy (replacement rng) template pos).2 = (pos + placeholders template)%nat.
Proof.
  revert pos. unfold placeholders.
  induction template as [| c template IH]; intros pos; cbn [replace_xy].
  { cbn. lia. }
  cbn [String.list_ascii_of_string]. rewrite filter_cons.
  unfold rand_bind, rand_ret. destruct (matches_xy c) eqn:Hc.
  - rewrite decide_True by done. unfold replacement at 1, rand_bind, rand_ret, Math_random.
    specialize (IH (S pos)). destruct (replace_xy _ template (S pos)) as [rest pos'].
    cbn in *. lia.
  - rewrite decide_False by done.
    specialize (IH pos). by destruct (replace_xy _ template pos) as [rest pos'].
Qed.


Lemma generateNewId_draws pos : (generateNewId rng pos).2 = (pos + 31)%nat.
Proof. apply (replace_xy_draws "xxxxxxxx-xxxx-4xxx-yxxx-xxxxxxxxxxxx"). Qed.




End draws.

Section loadPackage_draws.

Variables rng rng' : nat → Q.
Variable builtin_text : string → string.


End loadPackage_draws.

Section loadPackage_edge.

Variable rng : nat → Q.
Variable builtin_text : string → string.

Implicit Types (doc : PackageDoc.t) (out : PackageBlockModel.t).




End loadPackage_edge.

Section layers_and_blocks.

Variable rng : nat → Q.
Variable builtin_text : string → string.

Implicit Types (doc : PackageDoc.t) (out : PackageBlockModel.t).

Lemma keys_moved m (o : JsObject.t ModelView.t) :
  JsObject.keys (moved m o) = omap (λ k, m !! k) (JsObject.keys o).
Proof.
  unfold JsObject.keys, moved. induction o as [| [k v] o IH]; [done |].
  cbn. destruct (m !! k); cbn; by rewrite IH.
Qed.

Lemma kept_nothing m (o : JsObject.t ModelView.t) :
  (∀ k, k ∈ JsObject.keys o → is_Some (m !! k)) → kept m o = [].
Proof.
  intros Hall. unfold kept. induction o as [| [k v] o IH]; [done |].
  rewrite filter_cons. cbn [fst]. destruct (Hall k) as [n Hn]; [left |].
  rewrite decide_False by (by rewrite Hn). apply IH.
  intros k' Hk'. apply Hall. by right.
Qed.

Lemma get_moved m (o : JsObject.t ModelView.t) k b :
  JsObject.get (moved m o) k = Some b → ModelView.id b = JsString k.
Proof.
  unfold moved. induction o as [| [k' v] o IH]; [done |].
  cbn. destruct (m !! k') as [n |]; cbn; [| done].
  case_decide; [| done]. by intros [= <-]; subst.
Qed.

(** X10. The layer of the nodes stays in step with the blocks. If the keys
    of layer 0 or 1 are exactly the block ids of the input, each once,
    then (no generated id colliding, and none of the block ids naming a
    member of [Object.prototype]) the keys of that layer in the result are
    exactly the block ids of the result, each once, and every entry has
    its key as [id]. *)
Theorem loadPackage_layer_in_step doc pos out (i : nat) l :
  valid_random rng → well_formed doc → plain_keys doc →
  NoDup (fresh_ids rng doc pos) → ids_unused doc (fresh_ids rng doc pos) →
  (loadPackage rng builtin_text doc pos).1 = Normal out →
  (i < 2)%nat → doc_layers doc !! i = Some l →
  JsObject.keys (Layer.models l) ≡ₚ Block.id <$> doc_blocks doc →
  ∃ l', out_layers out !! i = Some l'
    ∧ JsObject.keys (Layer.models l') ≡ₚ Block.id <$> out_blocks out
    ∧ NoDup (JsObject.keys (Layer.models l'))
    ∧ ∀ k b, JsObject.get (Layer.models l') k = Some b → ModelView.id b = JsString k.
Proof.
  intros Hvalid Hwf Hplain Hnd Hunused Hrun Hi Hl Hkeys.
  destruct (loadPackage_layer_loop rng builtin_text doc pos out i l Hrun Hi Hl)
    as (o & Hloop & Hout).
  rewrite (layer_loop_rebuilt rng builtin_text doc pos i l) in Hloop by done.
  injection Hloop as <-.
  eexists. split; [exact Hout |]. cbn [Layer.models Layer.set_models].
  assert (NoDup (Block.id <$> doc_blocks doc)) as Hids.
  { rewrite <-Hkeys. destruct Hwf as [_ Hwf]. apply Hwf, list_elem_of_lookup.
    exists i. by rewrite lookup_take_lt. }
  assert ("__proto__" ∉ Block.id <$> doc_blocks doc) as Hproto.
  { rewrite <-Hkeys. intros Hin.
    unfold plain_keys in Hplain. rewrite Forall_forall in Hplain.
    apply (Hplain "__proto__"); [by eapply renamed_layer_keys_elem |].
    unfold Object_prototype_names. rewrite !elem_of_cons. tauto. }
  unfold rebuilt. rewrite kept_nothing.
  2:{ intros k Hk. apply id_mapping_complete; [by rewrite <-Hkeys |].
      intros ->. apply Hproto. by rewrite <-Hkeys. }
  cbn [app].
  assert (JsObject.keys (moved (id_mapping rng doc pos) (Layer.models l))
          ≡ₚ Block.id <$> out_blocks out) as Hperm.
  { rewrite keys_moved, Hkeys. unfold id_mapping.
    rewrite renameBlocks_map_ids by done.
    apply loadPackage_design in Hrun as (Hd & _). unfold out_blocks. by rewrite Hd. }
  split; [done |]. split.
  - rewrite Hperm.
    rewrite (out_blocks_new _ _ _ _ _ Hrun), new_blocks_ids. done.
  - intros k b. apply get_moved.
Qed.

End layers_and_blocks.

Section model_and_block.

Variable rng : nat → Q.
Variable builtin_text : string → string.

Implicit Types (doc : PackageDoc.t) (out : PackageBlockModel.t).


End model_and_block.

(** ** Every version-4 UUID can be generated *)

(** The value of a hexadecimal digit. *)
Definition hex_value (c : ascii) : Z :=
  default 0 (snd <$> list_find (λ d, Js.digit_char d = c) (seqZ 0 16)).

(** The draws that make the generator print [s] for [template]: for each
    placeholder, the digit of [s] at its place, as a sixteenth. *)
Fixpoint draws_for (template s : string) : list Q :=
  match template, s with
  | String t template', String c s' =>
      if matches_xy t then (hex_value c # 16)%Q :: draws_for template' s'
      else draws_for template' s'
  | _, _ => []
  end.

Definition replay (draws : list Q) (pos : nat) : nat → Q :=
  λ k, nth (k - pos) draws 0%Q.

Lemma hex_value_range c : 0 ≤ hex_value c < 16.
Proof. destruct c as [[] [] [] [] [] [] [] []]; by vm_compute. Qed.

Lemma hex_value_digit c :
  is_hex_digit c = true →
  Js.toString 16 (Js.bitor ((hex_value c # 16) * 16)%Q 0) = String c EmptyString.
Proof. destruct c as [[] [] [] [] [] [] [] []]; by vm_compute. Qed.

Lemma hex_value_variant c :
  is_variant_digit c = true →
  Js.toString 16 (Z.lor (Z.land (Js.bitor ((hex_value c # 16) * 16)%Q 0) 3) 8)
  = String c EmptyString.
Proof. destruct c as [[] [] [] [] [] [] [] []]; by vm_compute. Qed.

Lemma draws_for_valid template s : Forall (λ q, (0 <= q)%Q ∧ (q < 1)%Q) (draws_for template s).
Proof.
  revert s. induction template as [| t template IH]; intros s; [constructor |].
  destruct s as [| c s]; [constructor |]. cbn [draws_for].
  destruct (matches_xy t); [| apply IH]. constructor; [| apply IH].
  pose proof (hex_value_range c). unfold Qle, Qlt. cbn. lia.
Qed.

Lemma replay_valid draws pos :
  Forall (λ q, (0 <= q)%Q ∧ (q < 1)%Q) draws → valid_random (replay draws pos).
Proof.
  intros Hall k. unfold replay.
  destruct (nth_in_or_default (k - pos) draws 0%Q) as [Hin | ->]; [| done].
  rewrite Forall_forall in Hall. by apply Hall, list_elem_of_In.
Qed.

Lemma replace_xy_replay rng template s pos :
  has_layout (map field_of_placeholder (String.list_ascii_of_string template)) s = true →
  (∀ i : nat, (i < length (draws_for template s))%nat →
     rng (pos + i)%nat = nth i (draws_for template s) 0%Q) →
  (replace_xy (replacement rng) template pos).1 = s.
Proof.
  revert s pos. induction template as [| t template IH]; intros s pos Hs Hrng.
  { by destruct s. }
  destruct s as [| c s]; [done |].
  cbn [String.list_ascii_of_string map has_layout] in Hs.
  apply andb_true_iff in Hs as [Hc Hs].
  cbn [replace_xy draws_for] in *. unfold rand_bind, rand_ret.
  destruct (matches_xy t) eqn:Ht.
  - assert ((replacement rng t pos) = (String c EmptyString, S pos)) as ->.
    { unfold replacement, rand_bind, rand_ret, Math_random.
      assert (rng pos = (hex_value c # 16)%Q) as ->.
      { specialize (Hrng 0%nat). rewrite Nat.add_0_r in Hrng. apply Hrng. cbn. lia. }
      f_equal. unfold field_of_placeholder, matches_xy in *.
      destruct (Ascii.eqb t "x"); [by apply hex_value_digit |].
      cbn in Ht. rewrite Ht in Hc. by apply hex_value_variant. }
    specialize (IH s (S pos) Hs).
    destruct (replace_xy _ template (S pos)) as [rest pos']. cbn in *.
    f_equal. apply IH. intros i Hi.
    replace (S (pos + i)) with (pos + S i)%nat by lia.
    rewrite Hrng by lia. done.
  - specialize (IH s pos Hs Hrng).
    destruct (replace_xy _ template pos) as [rest pos']. cbn in *.
    unfold field_of_placeholder, matches_xy in *.
    destruct (Ascii.eqb t "x"); [done |]. destruct (Ascii.eqb t "y"); [done |].
    cbn in Hc. apply Ascii.eqb_eq in Hc as ->. by f_equal.
Qed.

(** X8. The generator reaches every version-4 UUID: for each string of
    that shape there are results of [Math.random], all in [0, 1), for
    which [generateNewId] returns it. *)
Theorem generateNewId_onto s pos :
  is_uuid_v4 s = true →
  ∃ rng, valid_random rng ∧ generateNewId rng pos = (s, (pos + 31)%nat).
Proof.
  intros Hs.
  exists (replay (draws_for "xxxxxxxx-xxxx-4xxx-yxxx-xxxxxxxxxxxx" s) pos).
  split; [apply replay_valid, draws_for_valid |].
  apply injective_projections; [| apply generateNewId_draws].
  apply (replace_xy_replay _ "xxxxxxxx-xxxx-4xxx-yxxx-xxxxxxxxxxxx"); [done |].
  intros i Hi. unfold replay. f_equal. lia.
Qed.

(** ** Concrete runs of the further properties *)

Definition busy_result : PackageBlockModel.t :=
  Eval vm_compute in
    match (loadPackage counting v8_text busy_doc 0%nat).1 with
    | Normal out => out
    | Throw _ => PackageBlockModel.mk (Editor.mk [] []) (Design.mk (Graph.mk [] []) []) JNull JNull
    end.

Example busy_run : (loadPackage counting v8_text busy_doc 0%nat).1 = Normal busy_result.
Proof. vm_compute. reflexivity. Qed.



Lemma loadPackage_wire_end_block_witness :
  ∃ b', out_blocks busy_result !! 2%nat = Some b'
    ∧ ∀ (p : nat) e,
        wire_ends (doc_wires busy_doc) !! p = Some e →
        to_key v8_text (Endpoint.block e) = "x" →
        wire_ends (out_wires busy_result) !! p
        = Some (Endpoint.mk (JsString (Block.id b')) (Endpoint.port e)).
Proof.
  apply (loadPackage_wire_end_block counting v8_text busy_doc 0%nat busy_result 2%nat
           (Block.mk "x" [("type", JText "basic.output")])).
  - vm_compute. reflexivity.
  - reflexivity.
  - discriminate.
  - intros j' b' Hlt Hj'. destruct j' as [| [| [| j']]]; [lia | lia | lia | discriminate Hj'].
Defined.

Lemma loadPackage_keeps_connectivity_witness :
  ∃ e1' e2',
    wire_ends (out_wires busy_result) !! 0%nat = Some e1'
    ∧ wire_ends (out_wires busy_result) !! 1%nat = Some e2'
    ∧ (Endpoint.block e1' = Endpoint.block e2'
       ↔ to_key v8_text (JsString "10") = to_key v8_text (JsString "x")).
Proof.
  apply (loadPackage_keeps_connectivity counting v8_text busy_doc 0%nat busy_result
           0%nat 1%nat (Endpoint.mk (JsString "10") (JText "out"))
           (Endpoint.mk (JsString "x") (JText "in"))).
  - by_decide.
  - vm_compute. reflexivity.
  - reflexivity.
  - reflexivity.
  - by_decide.
  - by_decide.
  - discriminate.
  - discriminate.
Defined.

Lemma loadPackage_inherited_wire_end_witness :
  wire_ends (out_wires (PackageBlockModel.mk
      (Editor.mk [ Layer.mk [] []; Layer.mk [] [] ] [])
      (Design.mk
         (Graph.mk
            [ Block.mk u_counting [] ]
            [ Wire.mk (Endpoint.mk (JsBuiltin "__proto__") (JText "out"))
                      (Endpoint.mk (JsBuiltin "__proto__") (JText "in")) [] ])
         [])
      JNull JNull)) !! 0%nat
  = Some (Endpoint.mk (JsBuiltin "__proto__") (JText "out")).
Proof.
  apply (loadPackage_inherited_wire_end counting v8_text proto_doc 0%nat _ 0%nat
           (Endpoint.mk (JsString "__proto__") (JText "out"))).
  - reflexivity.
  - reflexivity.
  - by_decide.
  - right. reflexivity.
Defined.



Lemma loadPackage_layer_in_step_witness :
  ∃ l', out_layers (scenario_result u_counting (JsString u_counting)) !! 0%nat = Some l'
    ∧ JsObject.keys (Layer.models l')
      ≡ₚ Block.id <$> out_blocks (scenario_result u_counting (JsString u_counting))
    ∧ NoDup (JsObject.keys (Layer.models l'))
    ∧ ∀ k b, JsObject.get (Layer.models l') k = Some b → ModelView.id b = JsString k.
Proof.
  apply (loadPackage_layer_in_step counting v8_text (scenario_doc "a") 0%nat
           (scenario_result u_counting (JsString u_counting)) 0%nat
           (Layer.mk [("a", ModelView.mk (JsString "a") [])] [])).
  - intros k. unfold counting, Qle, Qlt. simpl.
    pose proof (Nat.mod_upper_bound k 16). lia.
  - apply well_formedb_correct. vm_compute. reflexivity.
  - by_decide.
  - by_decide.
  - by_decide.
  - reflexivity.
  - lia.
  - reflexivity.
  - reflexivity.
Defined.

Lemma generateNewId_onto_witness :
  ∃ rng, valid_random rng
         ∧ generateNewId rng 0%nat = ("3f2b8c1e-9a4d-4e7f-a1b2-0123456789ab", (0 + 31)%nat).
Proof.
  apply (generateNewId_onto "3f2b8c1e-9a4d-4e7f-a1b2-0123456789ab" 0%nat).
  reflexivity.
Defined.


(** * Further properties of the block factory *)

(** [createComposedBlock]: a block of a composed (package) diagram, made
    without asking the user. *)
Definition createComposedBlock (type name' : string)
  : Completion (option BlockModel) * Console :=
  let block : option BlockModel := None in
  try_log block
    (if String.eqb type "basic.input" then
       Normal (Some (InputBlockModel [("name", JText name')]))
     else if String.eqb type "basic.output" then
       Normal (Some (OutputBlockModel [("name", JText name')]))
     else Normal block).

(** The names [createBlock] answers with a dialog. *)
Definition basic_names : list string :=
  ["basic.constant"; "basic.code"; "basic.input"; "basic.output"].

(** The view-model class that goes with a block name. *)
Definition model_for (name' : string) (block : BlockModel) : Prop :=
  match block with
  | ConstantBlockModel _ => name' = "basic.constant"
  | CodeBlockModel _ => name' = "basic.code"
  | InputBlockModel _ => name' = "basic.input"
  | OutputBlockModel _ => name' = "basic.output"
  | PackageBlock _ => name' ∉ basic_names
  end.

Section factory_more.

Variable rng : nat → Q.
Variable builtin_text : string → string.
Variable env : Collaborators.


(** X11. [createBlock] returns a block or logs an error, never both and
    never neither: either it returns a block of the class that goes with
    the name and prints nothing, or it returns [undefined] and prints
    exactly one error. *)
Theorem createBlock_block_or_log pos name' blockCount :
  (∃ block, createBlock rng builtin_text env pos name' blockCount = (Normal (Some block), [])
            ∧ model_for name' block)
  ∨ (∃ error, createBlock rng builtin_text env pos name' blockCount = (Normal None, [error])).
Proof.
  unfold createBlock.
  destruct (String.eqb name' "basic.constant") eqn:H1.
  { apply String.eqb_eq in H1 as ->.
    destruct (createConstantDialog env open_dialog) as [data | e]; cbn;
      [left; eexists; split; reflexivity | right; eexists; reflexivity]. }
  destruct (String.eqb name' "basic.code") eqn:H2.
  { apply String.eqb_eq in H2 as ->.
    destruct (createCodeDialog env open_dialog) as [data | e]; cbn;
      [left; eexists; split; reflexivity | right; eexists; reflexivity]. }
  destruct (String.eqb name' "basic.input") eqn:H3.
  { apply String.eqb_eq in H3 as ->.
    destruct (createIODialog env open_dialog) as [data | e]; cbn;
      [left; eexists; split; reflexivity | right; eexists; reflexivity]. }
  destruct (String.eqb name' "basic.output") eqn:H4.
  { apply String.eqb_eq in H4 as ->.
    destruct (createIODialog env open_dialog) as [data | e]; cbn;
      [left; eexists; split; reflexivity | right; eexists; reflexivity]. }
  apply String.eqb_neq in H1, H2, H3, H4.
  destruct (getCollectionBlock env name') as [doc | e]; cbn; [| by eauto].
  destruct (loadPackage rng builtin_text doc pos).1 as [out | e]; cbn; [| by eauto].
  left. eexists. split; [done |]. cbn. unfold basic_names. rewrite !not_elem_of_cons.
  repeat split; [done | done | done | done | apply not_elem_of_nil].
Qed.


(** X13. [createComposedBlock] makes a block for the types ['basic.input']
    and ['basic.output'] only, from the name alone: it is the block
    [createBlock] returns for that type when the dialog is answered with
    this name. For every other type, ['basic.constant'] and ['basic.code']
    included, it returns [undefined]; it never prints. *)
Theorem createComposedBlock_blocks type name' :
  (createComposedBlock type name').2 = []
  ∧ ((createComposedBlock type name').1 = Normal None
     ↔ type ∉ ["basic.input"; "basic.output"])
  ∧ (type ∈ ["basic.input"; "basic.output"] →
     createIODialog env open_dialog = Normal [("name", JText name')] →
     ∀ pos blockCount,
       createBlock rng builtin_text env pos type blockCount = createComposedBlock type name').
Proof.
  unfold createComposedBlock. rewrite !not_elem_of_cons, !elem_of_cons.
  destruct (String.eqb type "basic.input") eqn:H1.
  { apply String.eqb_eq in H1 as ->. cbn. split; [done |]. split.
    - split; [done | by intros [? _]].
    - intros _ Hdialog pos blockCount. unfold createBlock. cbn. by rewrite Hdialog. }
  destruct (String.eqb type "basic.output") eqn:H2.
  { apply String.eqb_eq in H2 as ->. cbn. split; [done |]. split.
    - split; [done | by intros (_ & ? & _)].
    - intros _ Hdialog pos blockCount. unfold createBlock. cbn. by rewrite Hdialog. }
  apply String.eqb_neq in H1, H2. cbn. split; [done |]. split.
  - split; [| done]. intros _. repeat split; [done | done | apply not_elem_of_nil].
  - intros [-> | [-> | Hin]]; [done | done | by apply elem_of_nil in Hin].
Qed.

End factory_more.

Section createBlock_inputs.

Variables rng rng' : nat → Q.
Variable builtin_text : string → string.
Variable env : Collaborators.


End createBlock_inputs.

(** ** The id of a constant block tells the count *)

Section constant_ids.

Lemma parse_digits_zeros n s :
  JsObject.parse_digits 0 (String.string_of_list_ascii (replicate n "0"%char) +:+ s)
  = JsObject.parse_digits 0 s.
Proof. induction n as [| n IH]; [done |]. cbn. apply IH. Qed.

(** Reading the padded count back gives the count. *)
Lemma padStart_decimal c :
  0 ≤ c → JsObject.parse_digits 0 (Js.padStart 4 "0" (Js.toString 10 c)) = Some c.
Proof. intros Hc. unfold Js.padStart. rewrite parse_digits_zeros. by apply toString_decimal. Qed.

(** Two numerals followed by a dash are the same numeral when the whole
    strings are equal. *)
Lemma numeral_before_dash s1 s2 r1 r2 acc1 acc2 :
  is_Some (JsObject.parse_digits acc1 s1) → is_Some (JsObject.parse_digits acc2 s2) →
  s1 +:+ String "-" r1 = s2 +:+ String "-" r2 → s1 = s2.
Proof.
  revert s2 acc1 acc2. induction s1 as [| d1 s1 IH]; intros s2 acc1 acc2 H1 H2 Heq.
  - destruct s2 as [| d2 s2]; [done |]. cbn in Heq. injection Heq as <- _.
    cbn in H2. by destruct H2.
  - destruct s2 as [| d2 s2].
    + cbn in Heq. injection Heq as -> _. cbn in H1. by destruct H1.
    + cbn in Heq. injection Heq as -> Heq. f_equal.
      cbn in H1, H2. destruct (JsObject.digit_value d2); [| by destruct H1].
      by eapply IH.
Qed.

Lemma constant_block_id_inj c1 c2 uid1 uid2 :
  0 ≤ c1 → 0 ≤ c2 →
  constant_block_id c1 uid1 = constant_block_id c2 uid2 → c1 = c2.
Proof.
  intros H1 H2 Heq. unfold constant_block_id in Heq.
  pose proof (padStart_decimal c1 H1) as Hp1. pose proof (padStart_decimal c2 H2) as Hp2.
  apply (numeral_before_dash _ _ _ _ 0 0) in Heq; [| by rewrite Hp1 | by rewrite Hp2].
  rewrite Heq in Hp1. congruence.
Qed.

Lemma head_digit_low c :
  10000 ≤ c < 20000 → ∃ rest, Js.padStart 4 "0" (Js.toString 10 c) = String "1" rest.
Proof.
  intros Hc.
  assert (forallb (λ c, match Js.padStart 4 "0" (Js.toString 10 c) with
                        | String "1" _ => true
                        | _ => false
                        end) (seqZ 10000 10000) = true) as Hall by (vm_compute; reflexivity).
  rewrite forallb_forall in Hall. specialize (Hall c).
  destruct (Js.padStart 4 "0" (Js.toString 10 c)) as [| d rest].
  - discriminate Hall. apply list_elem_of_In, elem_of_seqZ. lia.
  - exists rest. f_equal.
    destruct (Ascii.eqb_spec d "1") as [-> | Hne]; [done |].
    assert (false = true); [| done]. rewrite <-Hall by (apply list_elem_of_In, elem_of_seqZ; lia).
    destruct d as [[] [] [] [] [] [] [] []]; done.
Qed.

Lemma head_digit_high c :
  2000 ≤ c < 10000 →
  ∃ d rest, Js.padStart 4 "0" (Js.toString 10 c) = String d rest
            ∧ Ascii.compare "1" d = Lt.
Proof.
  intros Hc. rewrite padStart_four_digits by lia. unfold four_digits.
  do 2 eexists. split; [done |].
  change "1"%char with (Js.digit_char 1).
  rewrite digit_char_compare by (Z.div_mod_to_equations; lia).
  apply Z.compare_lt_iff. Z.div_mod_to_equations. lia.
Qed.

End constant_ids.

Section constant_ids_of_createBlock.

Variable rng : nat → Q.
Variable builtin_text : string → string.

Lemma createBlock_constant_data env pos blockCount data :
  createBlock rng builtin_text env pos "basic.constant" blockCount
  = (Normal (Some (ConstantBlockModel data)), []) →
  JsObject.get data "id"
  = Some (JText (constant_block_id blockCount (Toolkit_UID env))).
Proof.
  unfold createBlock. cbn.
  destruct (createConstantDialog env open_dialog) as [data0 | e]; cbn; [| done].
  intros [= <-]. apply JsObject_get_set.
Qed.

(** X14. Constant blocks created at different counts have different ids,
    whatever [Toolkit.UID()] returns: the count can be read back from the
    id. *)
Theorem createBlock_constant_ids_differ env1 env2 pos1 pos2 c1 c2 data1 data2 :
  0 ≤ c1 → 0 ≤ c2 → c1 ≠ c2 →
  createBlock rng builtin_text env1 pos1 "basic.constant" c1
  = (Normal (Some (ConstantBlockModel data1)), []) →
  createBlock rng builtin_text env2 pos2 "basic.constant" c2
  = (Normal (Some (ConstantBlockModel data2)), []) →
  JsObject.get data1 "id" ≠ JsObject.get data2 "id".
Proof.
  intros H1 H2 Hne Hrun1 Hrun2.
  rewrite (createBlock_constant_data _ _ _ _ Hrun1), (createBlock_constant_data _ _ _ _ Hrun2).
  intros [= Heq]. by apply Hne, (constant_block_id_inj c1 c2 _ _ H1 H2 Heq).
Qed.

(** X15. From the ten-thousandth block on the ids no longer sort by age:
    a constant block created at a count between 10000 and 19999 gets an
    id that sorts before the id of every block created at a count between
    2000 and 9999. *)
Theorem createBlock_constant_order_lost env1 env2 pos1 pos2 c1 c2 data1 data2 id1 id2 :
  2000 ≤ c1 < 10000 → 10000 ≤ c2 < 20000 →
  createBlock rng builtin_text env1 pos1 "basic.constant" c1
  = (Normal (Some (ConstantBlockModel data1)), []) →
  createBlock rng builtin_text env2 pos2 "basic.constant" c2
  = (Normal (Some (ConstantBlockModel data2)), []) →
  JsObject.get data1 "id" = Some (JText id1) →
  JsObject.get data2 "id" = Some (JText id2) →
  String.ltb id2 id1 = true.
Proof.
  intros H1 H2 Hrun1 Hrun2.
  rewrite (createBlock_constant_data _ _ _ _ Hrun1), (createBlock_constant_data _ _ _ _ Hrun2).
  intros [= <-] [= <-]. unfold constant_block_id.
  destruct (head_digit_high c1 H1) as (d & rest1 & -> & Hd).
  destruct (head_digit_low c2 H2) as (rest2 & ->).
  unfold String.ltb. by rewrite !string_app_cons, string_compare_cons, Hd.
Qed.

End constant_ids_of_createBlock.

(** ** Concrete runs *)


Lemma createBlock_constant_ids_differ_witness :
  JsObject.get [("name", JText "gain"); ("value", JText "2"); ("id", JText "0003-uid-1")] "id"
  ≠ JsObject.get [("name", JText "gain"); ("value", JText "2"); ("id", JText "0004-uid-1")] "id".
Proof.
  apply (createBlock_constant_ids_differ zeros v8_text answering answering 0%nat 0%nat 3 4).
  - lia.
  - lia.
  - lia.
  - reflexivity.
  - reflexivity.
Defined.

Lemma createBlock_constant_order_lost_witness :
  String.ltb "10000-uid-1" "9999-uid-1" = true.
Proof.
  apply (createBlock_constant_order_lost zeros v8_text answering answering 0%nat 0%nat
           9999 10000
           [("name", JText "gain"); ("value", JText "2"); ("id", JText "9999-uid-1")]
           [("name", JText "gain"); ("value", JText "2"); ("id", JText "10000-uid-1")]).
  - lia.
  - lia.
  - reflexivity.
  - reflexivity.
  - reflexivity.
  - reflexivity.
Defined.


(** * Further properties of [loadPackage] on the store *)

Section result_frame.

Import Heap.

Variable h0 : list object.
Variable rng : nat → Q.
Variable builtin_text : string → string.
Variable number_text : Q → string.
Variable object_text : list object → nat → string.

(** The two copies [loadPackage] works on are not objects of the caller. *)
Lemma rename_fresh jsonModel :
  preserves h0 (λ temp, fresh h0 temp.1 ∧ fresh h0 temp.2)
    (rename rng builtin_text number_text object_text jsonModel).
Proof.
  unfold rename.
  eapply preserves_bind; [apply preserves_Get_any |]. intros originalEditor _.
  eapply preserves_bind; [apply preserves_Get_any |]. intros originalDesign _.
  eapply preserves_bind; [apply preserves_cloneDeep |]. intros design Hdesign.
  eapply preserves_bind; [apply preserves_cloneDeep |]. intros editor Heditor.
  eapply preserves_bind; [apply preserves_alloc; constructor |]. intros newIdMap Hm.
  eapply preserves_bind; [by apply preserves_Get |]. intros graph Hgraph.
  eapply preserves_bind; [by apply preserves_Get |]. intros blocks Hblocks.
  eapply preserves_bind; [by apply preserves_elements |]. intros blockList Hlist.
  eapply preserves_bind.
  { eapply preserves_forEach; [| exact Hlist].
    intros block Hb. by apply preserves_renameBlock. }
  intros _ _. eapply preserves_bind.
  { apply (preserves_forEach h0 (λ _, True)); [| by apply Forall_true].
    intros i _. by apply preserves_updateModelIdsInLayer. }
  intros _ _.
  eapply preserves_bind; [by apply preserves_Get |]. intros graph' Hgraph'.
  eapply preserves_bind; [by apply preserves_Get |]. intros wires Hwires.
  eapply preserves_bind; [by apply preserves_elements |]. intros wireList Hwlist.
  eapply preserves_bind.
  { eapply preserves_forEach; [| exact Hwlist].
    intros wire Hw. by apply preserves_renameWire. }
  intros _ _. by apply preserves_ret.
Qed.

(** A read that succeeds in the caller's store gives the same value in
    every store that extends it. *)
Lemma Get_extended v k k' x (s s' : state) :
  objects s `prefix_of` objects s' →
  (Get v k s).1 = Normal x → (Get v k' s').1 = (Get v k' s).1.
Proof.
  intros Hpre. destruct v as [| | b | n | str | l | name]; cbn; try done.
  unfold bind, read. destruct (objects s !! l) as [o |] eqn:Ho; [| done].
  by rewrite (prefix_lookup_Some _ _ _ _ Ho Hpre).
Qed.

Lemma rename_reads_argument jsonModel s temp s' :
  rename rng builtin_text number_text object_text jsonModel s = (Normal temp, s') →
  ∃ x, (Get jsonModel "editor" s).1 = Normal x.
Proof.
  unfold rename. unfold bind at 1.
  destruct (Get jsonModel "editor" s) as [[x | e] s0]; [by eauto | done].
Qed.

End result_frame.

Section result.

Variable rng : nat → Q.
Variable builtin_text : string → string.
Variable number_text : Q → string.
Variable object_text : list Heap.object → nat → string.

(** X16. What the result shares with the argument. When [loadPackage]
    returns, its result is a new object; [model] and [design] in it are not
    objects of the caller, while [info] and [dependencies] are the very
    values (for objects: the very objects) the argument has as [package]
    and [dependencies]. *)
Theorem loadPackage_shares_package jsonModel h pos result after :
  Heap.loadPackage rng builtin_text number_text object_text jsonModel (Heap.State h pos)
  = (Normal result, after) →
  ∃ r model design info dependencies,
    result = Heap.Ref r ∧ (length h ≤ r)%nat
    ∧ Heap.objects after !! r
      = Some (Heap.Object false [ ("model", model); ("design", design);
                                  ("info", info); ("dependencies", dependencies) ])
    ∧ fresh h model ∧ fresh h design
    ∧ (Heap.Get jsonModel "package" (Heap.State h pos)).1 = Normal info
    ∧ (Heap.Get jsonModel "dependencies" (Heap.State h pos)).1 = Normal dependencies.
Proof.
  unfold Heap.loadPackage. unfold Heap.bind at 1.
  assert (inv h (Heap.State h pos)) as Hinv.
  { split; [done |]. intros l o Hl Ho. apply lookup_lt_Some in Ho. cbn in Ho. lia. }
  destruct (rename_fresh h rng builtin_text number_text object_text jsonModel _ Hinv)
    as [[Hpre _] Hfresh].
  destruct (Heap.rename _ _ _ _ jsonModel _) as [[temp | e] s1] eqn:Hrename; [| done].
  destruct (Hfresh temp eq_refl) as [Hmodel Hdesign].
  destruct (rename_reads_argument _ _ _ _ _ _ _ _ Hrename) as [x Hx].
  cbn [snd] in Hpre.
  pose proof (Get_extended jsonModel "editor" "package" x (Heap.State h pos) s1 Hpre Hx) as Hp.
  pose proof (Get_extended jsonModel "editor" "dependencies" x (Heap.State h pos) s1 Hpre Hx) as Hd.
  unfold Heap.bind.
  pose proof (Get_state jsonModel "package" s1) as Hs2.
  destruct (Heap.Get jsonModel "package" s1) as [[info | e] s2]; cbn [fst snd] in *; [| done].
  subst s2.
  pose proof (Get_state jsonModel "dependencies" s1) as Hs3.
  destruct (Heap.Get jsonModel "dependencies" s1) as [[dependencies | e] s3];
    cbn [fst snd] in *; [| done].
  subst s3. unfold Heap.alloc. intros [= <- <-].
  exists (length (Heap.objects s1)), temp.1, temp.2, info, dependencies.
  split; [done |]. split; [by apply prefix_length |].
  split; [cbn; by apply list_lookup_middle |]. done.
Qed.

Lemma bind_Normal {A B} (m : Heap.M A) (f : A → Heap.M B) s a s' :
  m s = (Normal a, s') → Heap.bind m f s = f a s'.
Proof. unfold Heap.bind. by intros ->. Qed.

Lemma bind_Throw {A B} (m : Heap.M A) (f : A → Heap.M B) s e s' :
  m s = (Throw e, s') → Heap.bind m f s = (Throw e, s').
Proof. unfold Heap.bind. by intros ->. Qed.

Lemma Get_missing l k s o :
  Heap.objects s !! l = Some o → JsObject.get (Heap.props o) k = None →
  Heap.Get (Heap.Ref l) k s = (Normal (Heap.inherited k), s).
Proof. intros Ho Hk. unfold Heap.Get, Heap.bind, Heap.read. by rewrite Ho, Hk. Qed.

(** X17. An argument that is not a package document. When the argument is
    not an object, or is an object with neither an [editor] nor a [design]
    property, [loadPackage] throws a [TypeError]. *)
Theorem loadPackage_not_a_document jsonModel s :
  match jsonModel with
  | Heap.Ref l =>
      ∃ o, Heap.objects s !! l = Some o
           ∧ JsObject.get (Heap.props o) "editor" = None
           ∧ JsObject.get (Heap.props o) "design" = None
  | _ => True
  end →
  (Heap.loadPackage rng builtin_text number_text object_text jsonModel s).1 = Throw TypeError.
Proof.
  destruct jsonModel as [| | b | n | str | l | name]; try (intros _; reflexivity).
  intros (o & Ho & Heditor & Hdesign).
  unfold Heap.loadPackage.
  erewrite bind_Throw; [done |]. unfold Heap.rename.
  erewrite bind_Normal by (by eapply Get_missing).
  erewrite bind_Normal by (by eapply Get_missing).
  reflexivity.
Qed.

End result.

(** ** Concrete runs *)

(** The store after the import of the scenario document, and the result. *)
Definition scenario_after : Heap.state :=
  Eval vm_compute in
    (Heap.loadPackage counting v8_text (λ _, "NaN") (λ _ _, "[object Object]")
       scenario_root (Heap.State scenario_store 0)).2.

Definition scenario_result_ref : Heap.value :=
  Eval vm_compute in
    match (Heap.loadPackage counting v8_text (λ _, "NaN") (λ _ _, "[object Object]")
             scenario_root (Heap.State scenario_store 0)).1 with
    | Normal v => v
    | Throw _ => Heap.Undefined
    end.

Lemma loadPackage_shares_package_witness :
  ∃ r model design info dependencies,
    scenario_result_ref = Heap.Ref r ∧ (length scenario_store ≤ r)%nat
    ∧ Heap.objects scenario_after !! r
      = Some (Heap.Object false [ ("model", model); ("design", design);
                                  ("info", info); ("dependencies", dependencies) ])
    ∧ fresh scenario_store model ∧ fresh scenario_store design
    ∧ (Heap.Get scenario_root "package" (Heap.State scenario_store 0)).1 = Normal info
    ∧ (Heap.Get scenario_root "dependencies" (Heap.State scenario_store 0)).1
      = Normal dependencies.
Proof.
  apply (loadPackage_shares_package counting v8_text (λ _, "NaN") (λ _ _, "[object Object]")
           scenario_root scenario_store 0%nat scenario_result_ref scenario_after).
  vm_compute. reflexivity.
Defined.

Lemma loadPackage_not_a_document_witness :
  (Heap.loadPackage counting v8_text (λ _, "NaN") (λ _ _, "[object Object]")
     (Heap.Ref 0) (Heap.State [Heap.Object false []] 0)).1 = Throw TypeError.
Proof.
  apply (loadPackage_not_a_document counting v8_text (λ _, "NaN") (λ _ _, "[object Object]")
           (Heap.Ref 0) (Heap.State [Heap.Object false []] 0)).
  exists (Heap.Object false []). repeat split; reflexivity.
Defined.
